(** * minirag: retrieval-augmented question answering

    A shallow embedding of the Python sources [app/ingestion.py],
    [app/qa.py], [app/qa_graph.py] and [app/main.py], and the properties
    of the request handlers [ask] and [upload_document], of the start of
    the process, of the chunk post-processing [split_text_documents]
    and of the index persistence [save_vectorstore] /
    [load_vectorstore].

    Conventions.
    - A Python [str] is a list of Unicode code points ([list N]).
    - A Python [set] of strings is a [gset (list N)]; [list(s)] is
      [elements s], whose order is a function of the set alone.
    - A Python [dict] with string keys is a [gmap (list N) _].
    - A call that may raise returns in [io]: the trace of observable
      events (port calls, pipeline invocations, log records) together
      with either the raised exception or the returned value.
    - LangChain, LangGraph, FAISS, pickle and the file system are outside
      the repository; what the code needs from them is the interface
      [External]. *)

From Stdlib Require Import Ascii String.
From stdpp Require Import base option list gmap sets strings pretty.

Set Default Proof Using "Type".
Local Open Scope N_scope.

(** ** Python strings *)

Abbreviation str := (list N) (only parsing).

(** A source literal, as the string of its code points. *)
Definition lit (s : string) : str :=
  (λ a : ascii, N_of_ascii a) <$> list_ascii_of_string s.

(** [str.isspace] on one code point: the table [_PyUnicode_IsWhitespace]
    of CPython. *)
Definition isspace (c : N) : bool :=
  ((9 <=? c) && (c <=? 13)) || ((28 <=? c) && (c <=? 32))
  || (c =? 133) || (c =? 160) || (c =? 5760)
  || ((8192 <=? c) && (c <=? 8202))
  || (c =? 8232) || (c =? 8233) || (c =? 8239) || (c =? 8287)
  || (c =? 12288).

Fixpoint lstrip (s : str) : str :=
  match s with
  | [] => []
  | c :: s' => if isspace c then lstrip s' else s
  end.

Definition rstrip (s : str) : str := reverse (lstrip (reverse s)).

(** [s.strip()] *)
Definition strip (s : str) : str := rstrip (lstrip s).

Definition nl : str := [10].

(** [str(n)] for an integer. *)
Definition str_of_Z (n : Z) : str := lit (pretty n).

(** [sep.join(parts)] *)
Fixpoint join (sep : str) (parts : list str) : str :=
  match parts with
  | [] => []
  | [p] => p
  | p :: ps => p ++ sep ++ join sep ps
  end.

(** [p.rfind(c)] for one character: the index of its last occurrence,
    or -1. *)
Fixpoint rfind_from (c : N) (p : str) (i last : Z) : Z :=
  match p with
  | [] => last
  | x :: p' => rfind_from c p' (i + 1)%Z (if x =? c then i else last)
  end.

Definition rfind (c : N) (p : str) : Z := rfind_from c p 0%Z (-1)%Z.

(** [os.path.splitext(p)] of [posixpath]: the extension starts at the
    last dot after the last slash, unless only dots lie between that
    slash and that dot. *)
Definition splitext (p : str) : str * str :=
  let sepIndex := rfind 47 p in
  let dotIndex := rfind 46 p in
  if (sepIndex <? dotIndex)%Z then
    let filenameIndex := Z.to_nat (sepIndex + 1) in
    let dot := Z.to_nat dotIndex in
    if forallb (N.eqb 46) (take (dot - filenameIndex) (drop filenameIndex p))
    then (p, [])
    else (take dot p, drop dot p)
  else (p, []).

(** Truthiness of a string: [bool(s)]. *)
Definition truthy (s : str) : bool :=
  match s with [] => false | _ => true end.

(** [a or b] on strings. *)
Definition str_or (a b : str) : str := if truthy a then a else b.

Local Close Scope N_scope.

(** ** Effects *)

(** Exceptions: [HTTPException] is a subclass of [Exception], so
    [except Exception] catches both. *)
Inductive exc :=
| Exception (msg : str)
| HTTPException (status_code : Z) (detail : str).

(** [str(e)] *)
Definition exc_str (e : exc) : str :=
  match e with
  | Exception m => m
  | HTTPException _ d => d
  end.

Inductive level := INFO | WARNING | ERROR.

(** The two pipelines of [main.py]: [retrieval_chain] and [graph_chain]. *)
Inductive pipeline := RetrievalQA | LangGraph.

(** What the language model receives: chat messages (system, human) or
    one prompt string. *)
Inductive llm_input :=
| ChatMessages (system human : str)
| PromptText (text : str).

(** A LangChain [Document]: a text and its metadata dictionary. *)
Record Document := mkDocument {
  page_content : str;
  metadata : gmap (list N) (list N)
}.

(** Arguments of a log record. *)
Inductive arg := AStr (s : str) | AInt (n : Z) | AList (l : list str).

Inductive event :=
| EmbedCall (text : str)                 (* Embedding Port *)
| GenerateCall (input : llm_input)       (* Generation Port *)
| SearchCall (k : Z) (hits : list Document)   (* Vector Index search and its result *)
| Invoke (p : pipeline) (question : str) (* chain.invoke *)
| Log (lvl : level) (msg : str) (args : list arg).

Definition io (A : Type) : Type := list event * (exc + A).

Global Instance io_ret : MRet io := λ A a, ([], inr a).

Global Instance io_bind : MBind io := λ A B f m,
  match m with
  | (t, inl e) => (t, inl e)
  | (t, inr a) => let '(t', r) := f a in (t ++ t', r)
  end.

Definition emit (e : event) : io () := ([e], inr ()).

Definition raise {A} (e : exc) : io A := ([], inl e).

(** A call of a function that returns or raises without other effect. *)
Definition call {A} (r : exc + A) : io A := ([], r).

(** [try: body except Exception as e: handler(e)] *)
Definition try_except {A} (body : io A) (handler : exc → io A) : io A :=
  match body with
  | (t, inl e) => let '(t', r) := handler e in (t ++ t', r)
  | (t, inr a) => (t, inr a)
  end.

(** A handler that also reads and assigns shared state (here
    [app.state] and the disk): the state after it, and what it did. An
    exception ends it and leaves the assignments made so far. *)
Definition proc (S A : Type) : Type := S → S * io A.

Global Instance proc_ret {S} : MRet (proc S) := λ A a s, (s, mret a).

Global Instance proc_bind {S} : MBind (proc S) := λ A B f m s,
  match m s with
  | (s1, (t1, inl e)) => (s1, (t1, inl e))
  | (s1, (t1, inr a)) => let '(s2, (t2, r)) := f a s1 in (s2, (t1 ++ t2, r))
  end.

Definition lift {S A} (m : io A) : proc S A := λ s, (s, m).
Definition get_state {S} : proc S S := λ s, (s, mret s).
Definition modify {S} (f : S → S) : proc S () := λ s, (f s, mret ()).

Definition trace {A} (m : io A) : list event := m.1.
Definition outcome {A} (m : io A) : exc + A := m.2.

(** The port calls and pipeline invocations of a trace. *)
Definition is_embed (e : event) : bool :=
  match e with EmbedCall _ => true | _ => false end.
Definition is_generate (e : event) : bool :=
  match e with GenerateCall _ => true | _ => false end.

Definition no_port_call (t : list event) : Prop :=
  forallb (λ e, negb (is_embed e) && negb (is_generate e)) t = true.

(** The Embedding Port and Generation Port calls of a trace, in order. *)
Definition port_calls (t : list event) : list event :=
  filter (λ e, is_embed e || is_generate e = true) t.

Definition invoked (t : list event) : list pipeline :=
  omap (λ e, match e with Invoke p _ => Some p | _ => None end) t.

(** The chunk sequences that the searches of a trace returned. *)
Definition retrieved (t : list event) : list (list Document) :=
  omap (λ e, match e with SearchCall _ hits => Some hits | _ => None end) t.

(** Loggers: [logger=None] or a logger object. *)
Inductive Logger := GetLogger (name : str).

(** [if logger: logger.<lvl>(msg, *args)] *)
Definition log_if (logger : option Logger) (lvl : level) (msg : str)
    (args : list arg) : io () :=
  match logger with
  | Some _ => emit (Log lvl msg args)
  | None => mret ()
  end.

(** [(d.metadata or {})]: an empty dictionary is falsy. *)
Definition metadata_or_empty (d : Document) : gmap (list N) (list N) :=
  if decide (metadata d = ∅) then ∅ else metadata d.

(** ** External collaborators *)

(** The embedding and generation providers are objects held in
    [app.state]. *)
Definition Embeddings (vec : Type) : Type := str → exc + vec.
Definition LLM : Type := llm_input → exc + str.

Class External := {
  (** an embedding vector *)
  vec : Type;
  (** a FAISS index over such vectors *)
  faiss_index : Type;
  (** [faiss.IndexFlatL2(d)] *)
  index_new : faiss_index;
  (** [index.add(vectors)] *)
  index_add : faiss_index → list vec → faiss_index;
  (** [index.search(v, k)]: the positions of the k nearest vectors,
      nearest first *)
  index_search : faiss_index → vec → Z → list nat;
  (** contents of a file *)
  blob : Type;
  (** [faiss.write_index] / [faiss.read_index] *)
  write_index : faiss_index → blob;
  read_index : blob → exc + faiss_index;
  (** [pickle.dump] / [pickle.load] of the docstore *)
  pickle_dump : list Document → blob;
  pickle_load : blob → exc + list Document;
  (** [RecursiveCharacterTextSplitter(chunk_size, chunk_overlap).split_text] *)
  split_text : Z → Z → str → list str
}.

Section Library.
Context `{External}.

(** ** The vector store (LangChain's [FAISS] wrapper) *)

Record FAISS := mkFAISS {
  embedding_function : Embeddings vec;
  index : faiss_index;
  (** the docstore, position i holding the chunk of vector i *)
  docstore : list Document
}.

(** [embeddings.embed_query(text)] *)
Definition embed_query (emb : Embeddings vec) (text : str) : io vec :=
  emit (EmbedCall text);; call (emb text).

(** [llm.invoke(input)] *)
Definition llm_invoke (llm : LLM) (input : llm_input) : io str :=
  emit (GenerateCall input);; call (llm input).

(** [vs.similarity_search_by_vector(v, k)] *)
Definition similarity_search_by_vector (vs : FAISS) (v : vec) (k : Z)
    : list Document :=
  omap (λ i, docstore vs !! i) (index_search (index vs) v k).

(** [vs.similarity_search(query, k)], what the retriever of
    [vs.as_retriever(search_type="similarity", search_kwargs={"k": k})]
    runs. *)
Definition similarity_search (vs : FAISS) (query : str) (k : Z)
    : io (list Document) :=
  v ← embed_query (embedding_function vs) query;
  let hits := similarity_search_by_vector vs v k in
  emit (SearchCall k hits);;
  mret hits.

(** ** The file system *)

Inductive node :=
| Dir (entries : gmap (list N) blob)
| File (content : blob).

Local Abbreviation filesystem := (gmap (list N) node).

(** [Path(p).exists()] *)
Definition path_exists (fs : filesystem) (p : str) : bool :=
  bool_decide (is_Some (fs !! p)).

(** [Path(p).iterdir()] *)
Definition iterdir (fs : filesystem) (p : str) : exc + list str :=
  match fs !! p with
  | Some (Dir entries) => inr (elements (dom entries))
  | Some (File _) => inl (Exception (lit "NotADirectoryError"))
  | None => inl (Exception (lit "FileNotFoundError"))
  end.

(** [any(xs)] over objects that are all truthy (paths). *)
Definition any_ {A} (xs : list A) : bool :=
  match xs with [] => false | _ => true end.

(** [Path(p).mkdir(parents=True, exist_ok=True)] *)
Definition mkdir (fs : filesystem) (p : str) : exc + filesystem :=
  match fs !! p with
  | Some (Dir _) => inr fs
  | Some (File _) => inl (Exception (lit "FileExistsError"))
  | None => inr (<[p := Dir ∅]> fs)
  end.

Definition read_file (fs : filesystem) (folder name : str) : exc + blob :=
  match fs !! folder with
  | Some (Dir entries) =>
      match entries !! name with
      | Some b => inr b
      | None => inl (Exception (lit "FileNotFoundError"))
      end
  | _ => inl (Exception (lit "FileNotFoundError"))
  end.

Definition write_file (fs : filesystem) (folder name : str) (b : blob)
    : exc + filesystem :=
  match fs !! folder with
  | Some (Dir entries) => inr (<[folder := Dir (<[name := b]> entries)]> fs)
  | _ => inl (Exception (lit "FileNotFoundError"))
  end.

(** [vs.save_local(folder)] *)
Definition save_local (vs : FAISS) (folder : str) (fs : filesystem)
    : io filesystem :=
  fs ← call (mkdir fs folder);
  fs ← call (write_file fs folder (lit "index.faiss")
               (write_index (index vs)));
  call (write_file fs folder (lit "index.pkl") (pickle_dump (docstore vs))).

(** [FAISS.load_local(folder, embeddings,
    allow_dangerous_deserialization=True)] *)
Definition load_local (fs : filesystem) (folder : str)
    (emb : Embeddings vec) : io FAISS :=
  b ← call (read_file fs folder (lit "index.faiss"));
  idx ← call (read_index b);
  p ← call (read_file fs folder (lit "index.pkl"));
  ds ← call (pickle_load p);
  mret (mkFAISS emb idx ds).

End Library.

Abbreviation filesystem := (gmap (list N) node).

(** How LangChain builds a store and adds to one. *)
Class VectorStoreOps `{External} := {
  (** [FAISS.from_documents(docs, embeddings)] *)
  from_documents : list Document → Embeddings vec → io FAISS;
  (** [vs.add_documents(docs)], which changes [vs] in place: what it
      did, the store afterwards, and the exception if it raised. *)
  add_documents : FAISS → list Document → list event * (FAISS * option exc)
}.

(** Built-in string operations that rest on the Unicode tables. *)
Class Builtins := {
  (** [s.lower()] *)
  str_lower : str → str;
  (** [raw.decode("utf-8", errors="ignore")] *)
  decode_utf8_ignore : list Byte.byte → str
}.

(** ** ingestion.py *)

Module ingestion.
Section ingestion.
Context `{External} `{!VectorStoreOps}.

Definition ALLOWED_EXTS : gset (list N) := {[ lit ".txt"; lit ".md" ]}.

Definition unknown : str := lit "unknown".
Definition source_key : str := lit "source".

(** [load_file_to_documents(text=..., source=...)] *)
Definition load_file_to_documents (text source : str) : list Document :=
  [mkDocument text {[source_key := source]}].

(** [splitter.split_documents(docs)]: every piece of a document's text
    becomes a chunk with a copy of the document's metadata. *)
Definition split_documents (chunk_size chunk_overlap : Z)
    (docs : list Document) : list Document :=
  d ← docs;
  (λ t, mkDocument t (metadata d))
    <$> split_text chunk_size chunk_overlap (page_content d).

(** [m.get("source") or "unknown"] *)
Definition get_source_or_unknown (m : gmap (list N) (list N)) : str :=
  match m !! source_key with
  | Some s => str_or s unknown
  | None => unknown
  end.

(** The body of the loop [for c in chunks]. *)
Definition ensure_source (c : Document) : Document :=
  mkDocument (page_content c)
    (<[source_key := get_source_or_unknown (metadata c)]> (metadata c)).

Definition split_text_documents (docs : list Document)
    (chunk_size chunk_overlap : Z) : list Document :=
  let chunks := split_documents chunk_size chunk_overlap docs in
  ensure_source <$> chunks.

Definition create_vectorstore_from_docs (docs : list Document)
    (emb : Embeddings vec) (logger : option Logger) : io FAISS :=
  log_if logger INFO (lit "Creating FAISS index from %d chunks...")
    [AInt (Z.of_nat (List.length docs))];;
  from_documents docs emb.

Definition save_vectorstore (vs : FAISS) (index_dir : str)
    (logger : option Logger) (fs : filesystem) : io filesystem :=
  fs ← call (mkdir fs index_dir);
  fs ← save_local vs index_dir fs;
  log_if logger INFO (lit "Saved FAISS index to %s") [AStr index_dir];;
  mret fs.

Definition load_vectorstore (index_dir : str) (emb : Embeddings vec)
    (logger : option Logger) (fs : filesystem) : io (option FAISS) :=
  try_except
    (missing ←
       (if negb (path_exists fs index_dir) then mret true
        else entries ← call (iterdir fs index_dir);
             mret (negb (any_ entries)));
     if (missing : bool) then mret None
     else
       vs ← load_local fs index_dir emb;
       log_if logger INFO (lit "Loaded FAISS index from %s")
         [AStr index_dir];;
       mret (Some vs))
    (λ e,
       log_if logger WARNING (lit "Could not load FAISS index from %s: %s")
         [AStr index_dir; AStr (exc_str e)];;
       mret None).

End ingestion.
End ingestion.

(** ** qa.py *)

Module qa.
Section qa.
Context `{External}.

(** [SYSTEM_PROMPT.format(context=context)] *)
Definition SYSTEM_PROMPT (context : str) : str :=
  lit "You are a helpful assistant that answers the user's question strictly using the provided context." ++ nl
  ++ lit "If the answer cannot be derived from the context, say you don't know." ++ nl
  ++ lit "Cite only the facts present in the context." ++ nl
  ++ lit "Answer concisely." ++ nl ++ nl
  ++ lit "<context>" ++ nl ++ context ++ nl ++ lit "</context>".

(** [USER_PROMPT.format(input=input)] *)
Definition USER_PROMPT (input : str) : str := lit "Question: " ++ input.

(** The object returned by [create_retrieval_chain]: the language model
    and the retriever it was built from. *)
Record RetrievalChain := mkRetrievalChain {
  rc_llm : LLM;
  rc_vectorstore : FAISS;
  rc_k : Z
}.

Definition build_retrieval_chain (llm : LLM) (vectorstore : FAISS)
    (top_k : Z) (logger : option Logger) : io RetrievalChain :=
  log_if logger INFO
    (lit "Retriever configured with top_k=" ++ str_of_Z top_k) [];;
  mret (mkRetrievalChain llm vectorstore top_k).

(** The dictionary a chain returns; a key that is absent is [None]. *)
Record ChainResult := mkChainResult {
  res_answer : option str;
  res_result : option str;
  res_context : option (list Document);
  res_source_documents : option (list Document)
}.

(** [chain.invoke({"input": question})] on a retrieval chain: the
    retriever fetches the top-k chunks, the stuff-documents chain joins
    their texts with a blank line into the context and calls the model;
    the result holds the keys [context] and [answer]. *)
Definition invoke (chain : RetrievalChain) (input : str) : io ChainResult :=
  docs ← similarity_search (rc_vectorstore chain) input (rc_k chain);
  let context := join (nl ++ nl) (page_content <$> docs) in
  answer ← llm_invoke (rc_llm chain)
              (ChatMessages (SYSTEM_PROMPT context) (USER_PROMPT input));
  mret (mkChainResult (Some answer) None (Some docs) None).

(** [(d.metadata or {}).get("source") or "unknown"] *)
Definition source_of (d : Document) : str :=
  ingestion.get_source_or_unknown (metadata_or_empty d).

(** [a or b] on lists. *)
Definition list_or {A} (a b : list A) : list A :=
  match a with [] => b | _ => a end.

(** The loop [for d in context_docs: sources.add(src)]. *)
Definition collect_sources (context_docs : list Document) : gset (list N) :=
  foldl (λ sources d, sources ∪ {[ source_of d ]}) ∅ context_docs.

Definition answer_with_sources (chain : RetrievalChain) (question : str)
    : io (str * gset (list N)) :=
  emit (Invoke RetrievalQA question);;
  res ← invoke chain question;
  let answer :=
    str_or (default [] (res_answer res)) (default [] (res_result res)) in
  let context_docs :=
    list_or (default [] (res_context res))
            (default [] (res_source_documents res)) in
  let sources := collect_sources context_docs in
  mret (answer, sources).

End qa.
End qa.

(** ** qa_graph.py *)

Module qa_graph.
Section qa_graph.
Context `{External}.

Definition SYSTEM_PROMPT (context : str) : str :=
  lit "You are a helpful assistant that answers strictly from the provided context." ++ nl
  ++ lit "If the answer cannot be derived from the context, say you don't know." ++ nl
  ++ lit "Be concise and cite only facts present in the context." ++ nl ++ nl
  ++ lit "<context>" ++ nl ++ context ++ nl ++ lit "</context>".

Definition USER_PROMPT (question : str) : str := lit "Question: " ++ question.

(** [QAState], a [TypedDict] with [total=False]: every key may be absent. *)
Record QAState := mkQAState {
  question : option str;
  docs : option (list Document);
  answer : option str;
  sources : option (gset (list N))
}.

(** [(d.metadata or {}).get("source", "unknown")] *)
Definition source_of (d : Document) : str :=
  default ingestion.unknown (metadata_or_empty d !! ingestion.source_key).

Definition _format_context (docs : list Document) : str :=
  let parts :=
    imap (λ i d,
            lit "[" ++ str_of_Z (Z.of_nat (S i)) ++ lit "] ("
            ++ source_of d ++ lit ")" ++ nl ++ page_content d) docs in
  join (nl ++ nl) parts.

(** [prompt.format(context=..., question=...)]: the chat template
    rendered to one string. *)
Definition prompt_format (context question : str) : str :=
  lit "System: " ++ SYSTEM_PROMPT context ++ nl
  ++ lit "Human: " ++ USER_PROMPT question.

(** The compiled graph: what the closures [retrieve] and [generate]
    capture. *)
Record GraphChain := mkGraphChain {
  g_llm : LLM;
  g_vectorstore : FAISS;
  g_k : Z;
  g_logger : option Logger
}.

(** [state["question"]] *)
Definition state_question (state : QAState) : io str :=
  match question state with
  | Some q => mret q
  | None => raise (Exception (lit "KeyError: 'question'"))
  end.

Definition retrieve (g : GraphChain) (state : QAState) : io QAState :=
  q ← state_question state;
  docs ← similarity_search (g_vectorstore g) q (g_k g);
  log_if (g_logger g) INFO (lit "Retrieved %d docs for question='%s'")
    [AInt (Z.of_nat (List.length docs)); AStr q];;
  mret (mkQAState None (Some docs) None None).

Definition generate (g : GraphChain) (state : QAState) : io QAState :=
  let docs := default [] (docs state) in
  let ctx := _format_context docs in
  q ← state_question state;
  let msg := prompt_format ctx q in
  text ← llm_invoke (g_llm g) (PromptText msg);
  let sources : gset (list N) := list_to_set (source_of <$> docs) in
  mret (mkQAState None None (Some text) (Some sources)).

Definition build_langgraph_chain (llm : LLM) (vectorstore : FAISS)
    (top_k : Z) (logger : option Logger) : GraphChain :=
  mkGraphChain llm vectorstore top_k logger.

(** A node's returned keys overwrite those of the state. *)
Definition update (state upd : QAState) : QAState :=
  mkQAState
    (from_option Some (question state) (question upd))
    (from_option Some (docs state) (docs upd))
    (from_option Some (answer state) (answer upd))
    (from_option Some (sources state) (sources upd)).

(** [chain.invoke(state)] on the compiled graph
    [retrieve -> generate -> END]; it returns the whole state. *)
Definition invoke (chain : GraphChain) (state : QAState) : io QAState :=
  upd ← retrieve chain state;
  let state := update state upd in
  upd ← generate chain state;
  mret (update state upd).

Definition answer_with_langgraph (chain : GraphChain) (q : str)
    : io (str * gset (list N)) :=
  emit (Invoke LangGraph q);;
  result ← invoke chain (mkQAState (Some q) None None None);
  mret (default [] (answer result), default ∅ (sources result)).

End qa_graph.
End qa_graph.

(** ** main.py *)

Module main.
Section main.
Context `{External} `{!VectorStoreOps} `{!Builtins}.

(** The fields of [utils.Config] that the core reads. *)
Record Config := mkConfig {
  INDEX_DIR : str;
  CHUNK_SIZE : Z;
  CHUNK_OVERLAP : Z;
  TOP_K : Z
}.

(** The module-level names [cfg], [logger] and [LANGGRAPH_AVAILABLE]. *)
Record Globals := mkGlobals {
  cfg : Config;
  logger : Logger;
  LANGGRAPH_AVAILABLE : bool
}.

(** [app.state] *)
Record State := mkState {
  use_langgraph : bool;
  embeddings : Embeddings vec;
  llm : LLM;
  vectorstore : option FAISS;
  retrieval_chain : option qa.RetrievalChain;
  graph_chain : option qa_graph.GraphChain
}.

(** [x is not None] *)
Definition is_not_None {A} (x : option A) : bool :=
  match x with Some _ => true | None => false end.

(** The module body after the imports: [prefer] is the value of
    [_truthy(os.getenv("USE_LANGGRAPH", "1"))], [emb] and [model] are
    the providers that [get_embeddings] and [get_llm] return. *)
Definition startup (g : Globals) (prefer : bool) (emb : Embeddings vec)
    (model : LLM) (fs : filesystem) : io State :=
  vs ← ingestion.load_vectorstore (INDEX_DIR (cfg g)) emb
         (Some (logger g)) fs;
  match vs with
  | Some v =>
      rc ← qa.build_retrieval_chain model v (TOP_K (cfg g))
             (Some (logger g));
      gc ← (if LANGGRAPH_AVAILABLE g then
              emit (Log INFO (lit "LangGraph chain initialized.") []);;
              mret (Some (qa_graph.build_langgraph_chain model v
                            (TOP_K (cfg g)) (Some (logger g))))
            else mret None);
      emit (Log INFO (lit "Vectorstore loaded and pipelines initialized.")
              []);;
      mret (mkState prefer emb model (Some v) (Some rc) gc)
  | None =>
      emit (Log INFO (lit "No existing vectorstore found. Upload documents via /upload to initialize.") []);;
      mret (mkState prefer emb model None None None)
  end.

(** The query parameter [engine: Optional[Literal["graph", "chain"]]]. *)
Inductive Engine := graph | chain.

Record AskRequest := mkAskRequest { question : str }.

(** The returned dictionary [{"answer": ..., "sources": [...]}]. *)
Record Answer := mkAnswer {
  answer : str;
  sources : list str
}.

(** Lines 158-163: which pipeline answers. *)
Definition use_graph (g : Globals) (st : State) (engine : option Engine)
    : bool :=
  match engine with
  | Some graph => LANGGRAPH_AVAILABLE g && is_not_None (graph_chain st)
  | Some chain => false
  | None =>
      use_langgraph st && LANGGRAPH_AVAILABLE g
      && is_not_None (graph_chain st)
  end.

(** The tail of the two log formats of [ask]. *)
Definition QA_format : str :=
  nl ++ lit "Q: %s" ++ nl ++ lit "A: %s" ++ nl ++ lit "Sources: %s".

(** [app.state.retrieval_chain = chain] *)
Definition set_retrieval_chain (st : State) (c : qa.RetrievalChain) : State :=
  mkState (use_langgraph st) (embeddings st) (llm st) (vectorstore st)
    (Some c) (graph_chain st).

(** [app.state.use_langgraph = prefer] *)
Definition set_use_langgraph (st : State) (prefer : bool) : State :=
  mkState prefer (embeddings st) (llm st) (vectorstore st)
    (retrieval_chain st) (graph_chain st).

(** Lines 165-172: the chosen pipeline runs; the Chain branch first
    builds [app.state.retrieval_chain] when it is [None]. *)
Definition run_pipeline (g : Globals) (st : State) (vs : FAISS)
    (question : str) (graph_selected : bool)
    : State * io (str * gset (list N)) :=
  if graph_selected then
    (st,
     '(a, s) ← match graph_chain st with
               | Some c => qa_graph.answer_with_langgraph c question
               | None =>
                   raise (Exception
                     (lit "'NoneType' object has no attribute 'invoke'"))
               end;
     emit (Log INFO (lit "Q/A (LangGraph)" ++ QA_format)
             [AStr question; AStr a; AList (elements s)]);;
     mret (a, s))
  else
    let '(st, built) :=
      match retrieval_chain st with
      | Some c => (st, mret c)
      | None =>
          let b := qa.build_retrieval_chain (llm st) vs (TOP_K (cfg g))
                     (Some (logger g)) in
          match outcome b with
          | inr c => (set_retrieval_chain st c, b)
          | inl _ => (st, b)
          end
      end in
    (st,
     c ← built;
     '(a, s) ← qa.answer_with_sources c question;
     emit (Log INFO (lit "Q/A (RetrievalQA)" ++ QA_format)
             [AStr question; AStr a; AList (elements s)]);;
     mret (a, s)).

(** [POST /ask]: the state after the request and what the handler
    does, returning the answer or raising an [HTTPException]. *)
Definition ask (g : Globals) (st : State) (req : AskRequest)
    (engine : option Engine) : State * io Answer :=
  match vectorstore st with
  | None =>
      (st, raise (HTTPException 400
             (lit "Knowledge base is empty. Upload documents via /upload first.")))
  | Some vs =>
      let question := strip (question req) in
      if negb (truthy question) then
        (st, raise (HTTPException 400 (lit "Question must not be empty.")))
      else
        let '(st, body) :=
          run_pipeline g st vs question (use_graph g st engine) in
        (st,
         try_except
           ('(a, s) ← body; mret (mkAnswer a (elements s)))
           (λ e,
              emit (Log ERROR (lit "Failed to answer question") []);;
              raise (HTTPException 500
                       (lit "Answering failed: " ++ exc_str e))))
  end.

(** *** [POST /upload] *)

(** The uploaded file: its name, if any, and what [await file.read()]
    gives. *)
Record UploadFile := mkUploadFile {
  filename : option str;
  read : exc + list Byte.byte
}.

(** The returned dictionary [{"message": ..., "chunks_indexed": ...}]. *)
Record UploadResponse := mkUploadResponse {
  message : str;
  chunks_indexed : Z
}.

(** [file.filename or "uploaded_file"] *)
Definition upload_filename (file : UploadFile) : str :=
  match filename file with
  | Some name => str_or name (lit "uploaded_file")
  | None => lit "uploaded_file"
  end.

(** [os.path.splitext(filename)[1].lower()] *)
Definition upload_ext (file : UploadFile) : str :=
  str_lower (splitext (upload_filename file)).2.

Definition unsupported_file_type (ext : str) : exc :=
  HTTPException 400
    (lit "Unsupported file type '" ++ ext ++ lit "'. Allowed: "
     ++ join (lit ", ") (elements ingestion.ALLOWED_EXTS)).

(** [app.state.vectorstore = vs] *)
Definition set_vectorstore (st : State) (vs : FAISS) : State :=
  mkState (use_langgraph st) (embeddings st) (llm st) (Some vs)
    (retrieval_chain st) (graph_chain st).

(** [app.state.graph_chain = chain] *)
Definition set_graph_chain (st : State) (c : qa_graph.GraphChain) : State :=
  mkState (use_langgraph st) (embeddings st) (llm st) (vectorstore st)
    (retrieval_chain st) (Some c).

(** The store object of [app.state.vectorstore] changed in place to
    [vs]: the pipelines were built from that object and hold it too. *)
Definition store_mutated (st : State) (vs : FAISS) : State :=
  mkState (use_langgraph st) (embeddings st) (llm st) (Some vs)
    ((λ c, qa.mkRetrievalChain (qa.rc_llm c) vs (qa.rc_k c))
       <$> retrieval_chain st)
    ((λ c, qa_graph.mkGraphChain (qa_graph.g_llm c) vs (qa_graph.g_k c)
             (qa_graph.g_logger c))
       <$> graph_chain st).

(** What a handler works on: [app.state] and the disk. *)
Abbreviation world := (State * filesystem)%type.

(** Lines 121-126: the first upload creates the index, a later one
    adds to it. *)
Definition index_chunks (g : Globals) (chunks : list Document)
    : proc world () :=
  λ '(st, fs),
    match vectorstore st with
    | None =>
        match ingestion.create_vectorstore_from_docs chunks (embeddings st)
                (Some (logger g)) with
        | (t, inr vs) => ((set_vectorstore st vs, fs), (t, inr ()))
        | (t, inl e) => ((st, fs), (t, inl e))
        end
    | Some vs =>
        let '(t, (vs', err)) := add_documents vs chunks in
        ((store_mutated st vs', fs),
         (t, match err with Some e => inl e | None => inr () end))
    end.

(** Line 128: [save_vectorstore(app.state.vectorstore, cfg.INDEX_DIR,
    logger)]. *)
Definition persist (g : Globals) : proc world () :=
  λ '(st, fs),
    match vectorstore st with
    | Some vs =>
        match ingestion.save_vectorstore vs (INDEX_DIR (cfg g))
                (Some (logger g)) fs with
        | (t, inr fs') => ((st, fs'), (t, inr ()))
        | (t, inl e) => ((st, fs), (t, inl e))
        end
    | None =>
        match mkdir fs (INDEX_DIR (cfg g)) with
        | inr fs' =>
            ((st, fs'),
             raise (Exception
                      (lit "'NoneType' object has no attribute 'save_local'")))
        | inl e => ((st, fs), raise e)
        end
    end.

(** Lines 131-133: both pipelines are built again. *)
Definition rebuild_pipelines (g : Globals) : proc world () :=
  λ '(st, fs),
    match vectorstore st with
    | Some vs =>
        match qa.build_retrieval_chain (llm st) vs (TOP_K (cfg g))
                (Some (logger g)) with
        | (t, inr rc) =>
            let st := set_retrieval_chain st rc in
            let st :=
              if LANGGRAPH_AVAILABLE g then
                set_graph_chain st
                  (qa_graph.build_langgraph_chain (llm st) vs
                     (TOP_K (cfg g)) (Some (logger g)))
              else st in
            ((st, fs), (t, inr ()))
        | (t, inl e) => ((st, fs), (t, inl e))
        end
    | None =>
        ((st, fs),
         raise (Exception
                  (lit "'NoneType' object has no attribute 'as_retriever'")))
    end.

(** The chunks that an upload indexes (lines 117-119). *)
Definition upload_chunks (g : Globals) (name : str) (raw : list Byte.byte)
    : list Document :=
  let text := decode_utf8_ignore raw in
  let docs := ingestion.load_file_to_documents text name in
  ingestion.split_text_documents docs (CHUNK_SIZE (cfg g))
    (CHUNK_OVERLAP (cfg g)).

(** The body of the [try] of [upload_document]. *)
Definition upload_body (g : Globals) (file : UploadFile)
    : proc world UploadResponse :=
  let name := upload_filename file in
  raw ← lift (call (read file));
  let chunks := upload_chunks g name raw in
  index_chunks g chunks;;
  persist g;;
  rebuild_pipelines g;;
  lift (emit (Log INFO
          (lit "Indexed " ++ str_of_Z (Z.of_nat (List.length chunks))
           ++ lit " chunks from '" ++ name ++ lit "'.") []));;
  mret (mkUploadResponse
          (lit "Document '" ++ name ++ lit "' indexed successfully.")
          (Z.of_nat (List.length chunks))).

(** [POST /upload]: [app.state] and the disk after the request, and
    what the handler does. *)
Definition upload_document (g : Globals) (w : world) (file : UploadFile)
    : world * io UploadResponse :=
  let ext := upload_ext file in
  if negb (bool_decide (ext ∈ ingestion.ALLOWED_EXTS)) then
    (w, raise (unsupported_file_type ext))
  else
    let '(w', body) := upload_body g file w in
    (w',
     try_except body
       (λ e,
          emit (Log ERROR (lit "Failed to process upload") []);;
          raise (HTTPException 500 (lit "Upload failed: " ++ exc_str e)))).

End main.
End main.

(** ** A concrete instance of the collaborators

    Integer vectors with squared Euclidean distance, an index that is
    the list of its vectors, files that hold either an index or a
    docstore, and a splitter that cuts windows of [chunk_size]
    characters advancing by [chunk_size - chunk_overlap]. It serves to
    run the model on concrete requests. *)

Module Demo.

Inductive file :=
| IndexFile (vectors : list (list Z))
| DocstoreFile (docs : list Document)
| Garbage.

Fixpoint dist2 (u v : list Z) : Z :=
  match u, v with
  | x :: u', y :: v' => (x - y) * (x - y) + dist2 u' v'
  | _, _ => 0
  end%Z.

(** Stable insertion into a list sorted by ascending distance. *)
Fixpoint insert_hit (h : Z * nat) (hs : list (Z * nat)) : list (Z * nat) :=
  match hs with
  | [] => [h]
  | h' :: hs' =>
      if (h.1 <=? h'.1)%Z then h :: hs else h' :: insert_hit h hs'
  end.

Definition search (idx : list (list Z)) (q : list Z) (k : Z) : list nat :=
  let scored := imap (λ i v, (dist2 v q, i)) idx in
  snd <$> take (Z.to_nat k) (foldr insert_hit [] scored).

Fixpoint windows (fuel size step : nat) (s : str) : list str :=
  match fuel with
  | O => []
  | S fuel' =>
      match s with
      | [] => []
      | _ =>
          take size s ::
            (if decide (List.length s ≤ size)%nat then []
             else windows fuel' size step (drop step s))
      end
  end.

Global Instance external : External := {|
  vec := list Z;
  faiss_index := list (list Z);
  index_new := [];
  index_add idx vs := idx ++ vs;
  index_search := search;
  blob := file;
  write_index := IndexFile;
  read_index b :=
    match b with
    | IndexFile vs => inr vs
    | _ => inl (Exception (lit "RuntimeError: not a FAISS index"))
    end;
  pickle_dump := DocstoreFile;
  pickle_load b :=
    match b with
    | DocstoreFile ds => inr ds
    | _ => inl (Exception (lit "UnpicklingError"))
    end;
  split_text size overlap s :=
    windows (List.length s) (Z.to_nat size) (Z.to_nat (size - overlap)) s
|}.

(** Stores built by embedding every chunk in turn; an empty list of
    chunks is refused. *)
Definition embed_all (emb : Embeddings (list Z)) (docs : list Document)
    : io (list (list Z)) :=
  mapM (λ d, embed_query emb (page_content d)) docs.

Global Instance store_ops : VectorStoreOps := {|
  from_documents docs emb :=
    match docs with
    | [] => raise (Exception (lit "IndexError: list index out of range"))
    | _ =>
        vs ← embed_all emb docs;
        mret (mkFAISS emb (index_add index_new vs) docs)
    end;
  add_documents vs docs :=
    match embed_all (embedding_function vs) docs with
    | (t, inr vecs) =>
        (t, (mkFAISS (embedding_function vs) (index_add (index vs) vecs)
               (docstore vs ++ docs), None))
    | (t, inl e) => (t, (vs, Some e))
    end
|}.

(** Lower case of the ASCII letters, and decoding of ASCII bytes with
    the others dropped. *)
Global Instance builtins : Builtins := {|
  str_lower s :=
    (λ c, if (65 <=? c)%N && (c <=? 90)%N then (c + 32)%N else c) <$> s;
  decode_utf8_ignore raw :=
    filter (λ c, (c < 128)%N) (Byte.to_N <$> raw)
|}.

(** An embedding provider: the length of the text, as a one-dimensional
    vector. *)
Definition embed : Embeddings (list Z) :=
  λ text, inr [Z.of_nat (List.length text)].

(** A generation provider with a fixed reply. *)
Definition model : LLM := λ _, inr (lit "Paris.").

Definition doc (text source : str) : Document :=
  mkDocument text {[ingestion.source_key := source]}.

(** An index of three chunks, of the sources b.txt, a.txt, b.txt. *)
Definition chunks : list Document :=
  [doc (lit "x") (lit "b.txt");
   doc (lit "xxx") (lit "a.txt");
   doc (lit "xxxxx") (lit "b.txt")].

Definition store : FAISS :=
  mkFAISS embed [[1]; [3]; [5]]%Z chunks.

Definition config : main.Config :=
  main.mkConfig (lit "data/index") 1000 150 4.

Definition globals (available : bool) : main.Globals :=
  main.mkGlobals config (GetLogger (lit "mini-rag")) available.

(** A state with an index and the Chain pipeline, and no staged
    pipeline. *)
Definition chain_only : main.State :=
  main.mkState true embed model (Some store)
    (Some (qa.mkRetrievalChain model store 4)) None.

(** A state with both pipelines. *)
Definition both : main.State :=
  main.mkState true embed model (Some store)
    (Some (qa.mkRetrievalChain model store 4))
    (Some (qa_graph.build_langgraph_chain model store 4
             (Some (GetLogger (lit "mini-rag"))))).

(** The state before any ingestion. *)
Definition empty : main.State :=
  main.mkState true embed model None None None.

(** A file system whose index directory holds a file that is not a
    FAISS index. *)
Definition corrupt : filesystem :=
  {[ lit "data/index" := Dir {[ lit "index.faiss" := Garbage ]} ]}.

(** A provider that is down. *)
Definition broken_embed : Embeddings (list Z) :=
  λ _, inl (Exception (lit "quota exceeded")).

(** The bytes of an ASCII text. *)
Definition bytes (s : string) : list Byte.byte :=
  Ascii.byte_of_ascii <$> list_ascii_of_string s.

(** An upload of a text file. *)
Definition notes : main.UploadFile :=
  main.mkUploadFile (Some (lit "notes.TXT"))
    (inr (bytes "Paris is the capital of France.")).

(** A file that is not a text file, and a file without name. *)
Definition report : main.UploadFile :=
  main.mkUploadFile (Some (lit "report.pdf")) (inr (bytes "%PDF-1.7")).

Definition nameless : main.UploadFile :=
  main.mkUploadFile None (inr (bytes "some text")).

(** A state whose embedding provider is down, with and without index. *)
Definition broken_store : FAISS :=
  mkFAISS broken_embed [[1]; [3]; [5]]%Z chunks.

Definition broken : main.State :=
  main.mkState true broken_embed model (Some broken_store)
    (Some (qa.mkRetrievalChain model broken_store 4)) None.




(** A state whose index holds no chunk. *)
Definition blank_store : FAISS := mkFAISS embed [] [].

Definition blank : main.State :=
  main.mkState true embed model (Some blank_store) None None.


(** A document without source metadata. *)
Definition anonymous : Document := mkDocument (lit "hello world") ∅.

End Demo.

(** ** Vocabulary of the properties *)

(** The distinct elements of a list, each at the place of its first
    occurrence. *)
Definition insertion_order (l : list (list N)) : list (list N) :=
  foldl (λ acc x, if decide (x ∈ acc) then acc else acc ++ [x]) [] l.

(** The source identifier that a pipeline reads off a chunk. *)
Definition source_as (p : pipeline) (d : Document) : list N :=
  match p with
  | RetrievalQA => qa.source_of d
  | LangGraph => qa_graph.source_of d
  end.

(** The source identifier stored with a chunk. *)
Definition source_id (d : Document) : option (list N) :=
  metadata d !! ingestion.source_key.

(** How many chunks of a sequence carry the source identifier [s]. *)
Definition occurrences (s : list N) (docs : list Document) : nat :=
  List.length (filter (λ d, source_id d = Some s) docs).

(** How many times [s] is listed in the sources of a response. *)
Definition listed (s : list N) (l : list (list N)) : nat :=
  List.length (filter (λ x, x = s) l).

(** An input error: an [HTTPException] of status 400. *)
Definition input_error {A} (r : exc + A) : Prop :=
  ∃ detail, r = inl (HTTPException 400 detail).

(** The staged pipeline is available: the module was imported and the
    graph was constructed. *)
Definition staged_available `{External} (g : main.Globals)
    (st : main.State) : bool :=
  main.LANGGRAPH_AVAILABLE g && main.is_not_None (main.graph_chain st).

(** Log records. *)
Definition is_log (e : event) : bool :=
  match e with Log _ _ _ => true | _ => false end.

(** The pipelines of [app.state] are the ones that [main.py] builds:
    over the store of [app.state], with [cfg.TOP_K] and the model of
    [app.state]; the staged one exists only if its module was loaded. *)
Definition chains_consistent `{External} (g : main.Globals)
    (st : main.State) : Prop :=
  (∀ c, main.retrieval_chain st = Some c →
     main.vectorstore st = Some (qa.rc_vectorstore c)
     ∧ qa.rc_k c = main.TOP_K (main.cfg g)
     ∧ qa.rc_llm c = main.llm st)
  ∧ (∀ c, main.graph_chain st = Some c →
       main.LANGGRAPH_AVAILABLE g = true
       ∧ main.vectorstore st = Some (qa_graph.g_vectorstore c)
       ∧ qa_graph.g_k c = main.TOP_K (main.cfg g)
       ∧ qa_graph.g_llm c = main.llm st
       ∧ qa_graph.g_logger c = Some (main.logger g)).

(** The run of the pipeline that [main.py] builds over the store [vs]. *)
Definition built_run `{External} (g : main.Globals) (st : main.State)
    (vs : FAISS) (q : list N) (graph_selected : bool)
    : io (list N * gset (list N)) :=
  if graph_selected then
    qa_graph.answer_with_langgraph
      (qa_graph.build_langgraph_chain (main.llm st) vs
         (main.TOP_K (main.cfg g)) (Some (main.logger g))) q
  else
    qa.answer_with_sources
      (qa.mkRetrievalChain (main.llm st) vs (main.TOP_K (main.cfg g))) q.

(** What [ask] makes of the outcome of a pipeline run. *)
Definition ask_outcome (r : exc + list N * gset (list N))
    : exc + main.Answer :=
  match r with
  | inl e => inl (HTTPException 500 (lit "Answering failed: " ++ exc_str e))
  | inr (a, srcs) => inr (main.mkAnswer a (elements srcs))
  end.

(** What the model is given for the chunks [hits] and the question
    [q], by either pipeline. *)
Definition chain_input (hits : list Document) (q : list N) : llm_input :=
  ChatMessages
    (qa.SYSTEM_PROMPT (join (nl ++ nl) (page_content <$> hits)))
    (qa.USER_PROMPT q).

Definition graph_input (hits : list Document) (q : list N) : llm_input :=
  PromptText (qa_graph.prompt_format (qa_graph._format_context hits) q).

(** What pipeline [p] gives the model. *)
Definition input_as (p : pipeline) (hits : list Document) (q : list N)
    : llm_input :=
  match p with
  | RetrievalQA => chain_input hits q
  | LangGraph => graph_input hits q
  end.

(** The pipeline that a selector value stands for. *)
Definition pipeline_of (graph_selected : bool) : pipeline :=
  if graph_selected then LangGraph else RetrievalQA.

(** How [upload_document] ends when its [try] raises [e] after the
    events [t]. *)
Definition upload_failed {A} (t : list event) (e : exc) : io A :=
  (t ++ [Log ERROR (lit "Failed to process upload") []],
   inl (HTTPException 500 (lit "Upload failed: " ++ exc_str e))).

Definition empty_question_error : exc :=
  HTTPException 400 (lit "Question must not be empty.").

Definition empty_knowledge_base_error : exc :=
  HTTPException 400
    (lit "Knowledge base is empty. Upload documents via /upload first.").

(** * Properties *)

(** ** Strings and sets *)

Lemma lstrip_nil_iff s : lstrip s = [] ↔ forallb isspace s = true.
Proof.
  induction s as [|c s IH]; simpl; [done|].
  destruct (isspace c); simpl; [done|]. split; discriminate.
Qed.

Lemma lstrip_spaces_or_head s :
  lstrip s = [] ∨ ∃ c r, lstrip s = c :: r ∧ isspace c = false.
Proof.
  induction s as [|c s IH]; simpl; [by left|].
  destruct (isspace c) eqn:E; [done|]. right. eauto.
Qed.

Lemma forallb_reverse {A} (f : A → bool) l :
  forallb f (reverse l) = forallb f l.
Proof.
  induction l as [|x l IH]; [done|].
  rewrite reverse_cons, forallb_app, IH. simpl.
  rewrite andb_true_r. apply andb_comm.
Qed.

(** [s.strip()] is empty exactly when [s] holds only whitespace. *)
Lemma strip_nil_iff s : strip s = [] ↔ forallb isspace s = true.
Proof.
  unfold strip, rstrip. split.
  - intros Hs. apply (f_equal reverse) in Hs.
    rewrite reverse_involutive in Hs.
    change (reverse []) with (@nil N) in Hs.
    apply lstrip_nil_iff in Hs. rewrite forallb_reverse in Hs.
    destruct (lstrip_spaces_or_head s) as [Hl|(c & r & Hl & Hc)].
    + by apply lstrip_nil_iff.
    + rewrite Hl in Hs. simpl in Hs. rewrite Hc in Hs. discriminate.
  - intros Hs. apply lstrip_nil_iff in Hs. by rewrite Hs.
Qed.

Lemma truthy_true (s : list N) : s ≠ [] → truthy s = true.
Proof. by destruct s. Qed.

Lemma insertion_order_acc (acc l : list (list N)) :
  NoDup acc →
  let r := foldl (λ acc x, if decide (x ∈ acc) then acc else acc ++ [x])
             acc l in
  NoDup r ∧ ∀ x, x ∈ r ↔ x ∈ acc ∨ x ∈ l.
Proof.
  revert acc. induction l as [|y l IH]; intros acc Hacc; simpl.
  - split; [done|]. intros x. rewrite elem_of_nil. tauto.
  - destruct (decide (y ∈ acc)) as [Hy|Hy].
    + destruct (IH acc Hacc) as [Hnd Hin]. split; [done|].
      intros x. rewrite Hin, elem_of_cons.
      split; [tauto|]. intros [?|[->|?]]; tauto.
    + assert (NoDup (acc ++ [y])) as Hacc'.
      { apply NoDup_app. split_and!; [done| |apply NoDup_singleton].
        intros x Hx ->%list_elem_of_singleton. done. }
      destruct (IH _ Hacc') as [Hnd Hin]. split; [done|].
      intros x. rewrite Hin, elem_of_app, list_elem_of_singleton, elem_of_cons.
      tauto.
Qed.

Lemma insertion_order_NoDup l : NoDup (insertion_order l).
Proof. apply (insertion_order_acc [] l), NoDup_nil_2. Qed.

Lemma elem_of_insertion_order x l : x ∈ insertion_order l ↔ x ∈ l.
Proof.
  destruct (insertion_order_acc [] l (NoDup_nil_2 (A:=list N))) as [_ Hin].
  unfold insertion_order. rewrite Hin, elem_of_nil. tauto.
Qed.

(** [list(set(l))] lists the distinct elements of [l], in some order. *)
Lemma elements_list_to_set_insertion_order (l : list (list N)) :
  elements (list_to_set l : gset (list N)) ≡ₚ insertion_order l.
Proof.
  apply NoDup_Permutation.
  - apply NoDup_elements.
  - apply insertion_order_NoDup.
  - intros x. rewrite elem_of_elements, elem_of_list_to_set.
    by rewrite elem_of_insertion_order.
Qed.

Lemma listed_NoDup (s : list N) l : NoDup l → s ∈ l → listed s l = 1.
Proof.
  unfold listed. induction 1 as [|x l Hx Hnd IH]; intros Hs.
  - by apply elem_of_nil in Hs.
  - rewrite filter_cons. destruct (decide (x = s)) as [->|Hne].
    + simpl. f_equal.
      destruct (filter (λ x, x = s) l) as [|y k] eqn:E; [done|].
      assert (y ∈ filter (λ x, x = s) l) as [-> Hy]%list_elem_of_filter
        by (rewrite E; left).
      done.
    + apply elem_of_cons in Hs as [->|Hs]; [done|]. by apply IH.
Qed.

Lemma collect_sources_acc (acc : gset (list N)) docs :
  foldl (λ sources d, sources ∪ {[ qa.source_of d ]}) acc docs
  = acc ∪ list_to_set (qa.source_of <$> docs).
Proof.
  revert acc. induction docs as [|d docs IH]; intros acc; simpl.
  - by rewrite (right_id_L ∅ (∪)).
  - by rewrite IH, (assoc_L (∪)).
Qed.

(** The loop of [answer_with_sources] builds the set of the sources. *)
Lemma collect_sources_set docs :
  qa.collect_sources docs = list_to_set (qa.source_of <$> docs).
Proof.
  unfold qa.collect_sources. by rewrite collect_sources_acc, (left_id_L ∅ (∪)).
Qed.

Lemma list_or_nil_r {A} (l : list A) : qa.list_or l [] = l.
Proof. by destruct l. Qed.

Lemma invoked_app t1 t2 : invoked (t1 ++ t2) = invoked t1 ++ invoked t2.
Proof. apply omap_app. Qed.

Lemma retrieved_app t1 t2 :
  retrieved (t1 ++ t2) = retrieved t1 ++ retrieved t2.
Proof. apply omap_app. Qed.

Lemma index_files_distinct : lit "index.faiss" ≠ lit "index.pkl".
Proof. by vm_compute. Qed.

Local Opaque lit.

(** ** The two pipelines *)

Section Pipelines.
Context `{External}.

Ltac io_unfold :=
  unfold qa.answer_with_sources, qa.invoke, qa_graph.answer_with_langgraph,
    qa_graph.invoke, qa_graph.retrieve, qa_graph.generate,
    qa_graph.state_question, qa_graph.update,
    similarity_search, embed_query, llm_invoke, log_if,
    call, emit, raise, trace, outcome, mbind, io_bind, mret, io_ret in *.

(** A run of the Chain pipeline is one invocation of it; when it
    returns, one search was made and the returned set holds the sources
    of the chunks found. *)
Lemma answer_with_sources_run c q :
  let r := qa.answer_with_sources c q in
  invoked (trace r) = [RetrievalQA]
  ∧ ∀ a S, outcome r = inr (a, S) →
      ∃ docs, retrieved (trace r) = [docs]
              ∧ S = list_to_set (qa.source_of <$> docs).
Proof.
  io_unfold.
  destruct (embedding_function (qa.rc_vectorstore c) q) as [e|v];
    simpl; [by split|].
  destruct (qa.rc_llm c _) as [e|a']; simpl; [by split|].
  split; [done|]. intros a S [= <- <-]. eexists. split; [done|].
  by rewrite list_or_nil_r, collect_sources_set.
Qed.

(** The same for the staged pipeline. *)
Lemma answer_with_langgraph_run c q :
  let r := qa_graph.answer_with_langgraph c q in
  invoked (trace r) = [LangGraph]
  ∧ ∀ a S, outcome r = inr (a, S) →
      ∃ docs, retrieved (trace r) = [docs]
              ∧ S = list_to_set (qa_graph.source_of <$> docs).
Proof.
  io_unfold. simpl.
  destruct (embedding_function (qa_graph.g_vectorstore c) q) as [e|v];
    simpl; [by split|].
  destruct (qa_graph.g_logger c); simpl;
    (destruct (qa_graph.g_llm c _) as [e|a']; simpl; [by split|]);
    (split; [done|]); intros a S [= <- <-]; eexists; done.
Qed.

End Pipelines.

(** ** The request handler *)

Section Ask.
Context `{External}.
Import main.

Lemma use_graph_chain g st engine :
  use_graph g st engine = true → ∃ c, graph_chain st = Some c.
Proof.
  unfold use_graph, is_not_None.
  destruct engine as [[]|], (graph_chain st); eauto;
    rewrite ?andb_false_r; discriminate.
Qed.

(** Before the index exists the handler raises at once. *)
Lemma ask_no_index g st req engine :
  vectorstore st = None →
  ask g st req engine = (st, raise empty_knowledge_base_error).
Proof. intros Hvs. unfold ask. by rewrite Hvs. Qed.

(** A question that strips to the empty string is refused at once. *)
Lemma ask_blank g st vs req engine :
  vectorstore st = Some vs →
  strip (question req) = [] →
  ask g st req engine = (st, raise empty_question_error).
Proof. intros Hvs Hq. unfold ask. by rewrite Hvs, Hq. Qed.

(** With an index and a question that is not blank, the handler invokes
    exactly the selected pipeline; an answer lists the elements of the
    set of sources of the chunks found; a failure is a status 500. *)
Lemma ask_run g st vs req engine :
  vectorstore st = Some vs →
  strip (question req) ≠ [] →
  let r := (ask g st req engine).2 in
  let p := if use_graph g st engine then LangGraph else RetrievalQA in
  invoked (trace r) = [p]
  ∧ (∀ ans, outcome r = inr ans →
       ∃ docs, retrieved (trace r) = [docs]
               ∧ sources ans
                 = elements (list_to_set (source_as p <$> docs)
                             : gset (list N)))
  ∧ (∀ e, outcome r = inl e → ∃ detail, e = HTTPException 500 detail).
Proof.
  intros Hvs Hq. unfold ask, run_pipeline, try_except.
  rewrite Hvs, (truthy_true _ Hq). simpl negb. cbv iota.
  destruct (use_graph g st engine) eqn:Hsel.
  - destruct (use_graph_chain _ _ _ Hsel) as [c ->].
    destruct (answer_with_langgraph_run c (strip (question req)))
      as [Hinv Hret].
    destruct (qa_graph.answer_with_langgraph c (strip (question req)))
      as [t [e|[a S]]].
    + simpl in *. rewrite ?app_nil_r, invoked_app, Hinv.
      split; [done|]. split; [discriminate|]. intros e' [= <-]. eauto.
    + simpl in *. rewrite ?app_nil_r, !invoked_app, Hinv.
      split; [done|]. split; [|discriminate].
      intros ans [= <-]. destruct (Hret a S eq_refl) as (docs & Hd & ->).
      exists docs. by rewrite !retrieved_app, Hd.
  - destruct (retrieval_chain st) as [c0|]; simpl;
      [ set (c := c0)
      | set (c := qa.mkRetrievalChain (llm st) vs (TOP_K (cfg g))) ];
      destruct (answer_with_sources_run c (strip (question req)))
        as [Hinv Hret];
      destruct (qa.answer_with_sources c (strip (question req)))
        as [t [e|[a S]]]; simpl in *;
      rewrite ?app_nil_r, ?invoked_app, Hinv;
      (split; [done|]); split; try discriminate.
    + intros e' [= <-]. eauto.
    + intros ans [= <-]. destruct (Hret a S eq_refl) as (docs & Hd & ->).
      exists docs. by rewrite ?retrieved_app, Hd.
    + intros e' [= <-]. eauto.
    + intros ans [= <-]. destruct (Hret a S eq_refl) as (docs & Hd & ->).
      exists docs. by rewrite ?retrieved_app, Hd.
Qed.

End Ask.

Section AskClaims.
Context `{External}.
Import main.

Lemma ask_answered_index g st req engine ans :
  outcome (ask g st req engine).2 = inr ans →
  ∃ vs, vectorstore st = Some vs ∧ strip (question req) ≠ [].
Proof.
  unfold ask. destruct (vectorstore st) as [vs|]; [|discriminate].
  intros Hans. exists vs. split; [done|]. intros Hq.
  rewrite Hq in Hans. discriminate.
Qed.

Lemma source_as_source_id p d s :
  source_id d = Some s → s ≠ [] → source_as p d = s.
Proof.
  unfold source_id. intros Hs Hne.
  assert (metadata_or_empty d = metadata d) as Hm.
  { unfold metadata_or_empty. destruct (decide (metadata d = ∅)) as [E|];
      [|done]. rewrite E in Hs. by rewrite lookup_empty in Hs. }
  destruct p; simpl.
  - unfold qa.source_of, ingestion.get_source_or_unknown.
    rewrite Hm, Hs. unfold str_or. by rewrite truthy_true.
  - unfold qa_graph.source_of. by rewrite Hm, Hs.
Qed.

Lemma occurrences_elem s docs :
  1 ≤ occurrences s docs → ∃ d, d ∈ docs ∧ source_id d = Some s.
Proof.
  unfold occurrences. intros Hn.
  destruct (filter (λ d, source_id d = Some s) docs) as [|d k] eqn:E;
    [simpl in Hn; lia|].
  assert (d ∈ filter (λ d, source_id d = Some s) docs) as Hd
    by (rewrite E; left).
  apply list_elem_of_filter in Hd as [??]. eauto.
Qed.

(** C1 (as amended). When a request selects the staged engine
    explicitly while the staged pipeline is unavailable, the handler
    does exactly what it does for [engine="chain"]: with an index and a
    question that is not blank, the Chain variant is invoked and no
    input error (status 400) is raised. *)
Theorem ask_graph_unavailable_falls_back g st req :
  staged_available g st = false →
  ask g st req (Some graph) = ask g st req (Some chain)
  ∧ ∀ vs, vectorstore st = Some vs →
          strip (question req) ≠ [] →
          invoked (trace (ask g st req (Some graph)).2) = [RetrievalQA]
          ∧ ¬ input_error (outcome (ask g st req (Some graph)).2).
Proof.
  unfold staged_available. intros Hav.
  assert (use_graph g st (Some graph) = false) as Hsel by done.
  split.
  - unfold ask. by rewrite Hsel.
  - intros vs Hvs Hq.
    destruct (ask_run g st vs req (Some graph) Hvs Hq) as (Hinv & _ & Herr).
    rewrite Hsel in Hinv. split; [done|].
    intros [detail Hd]. destruct (Herr _ Hd) as [detail' [=]].
Qed.

(** C2. With an index and a question that is not blank: an explicit
    [engine="chain"] runs the Chain variant; without an explicit choice
    the staged variant runs exactly when the default preference is true
    and the staged pipeline is available, and the Chain variant
    otherwise; an explicit [engine="graph"] runs the staged variant when
    it is available; and under an explicit choice the handler does the
    same whatever the default preference is. *)
Theorem ask_selector_precedence g st vs req :
  vectorstore st = Some vs →
  strip (question req) ≠ [] →
  invoked (trace (ask g st req (Some chain)).2) = [RetrievalQA]
  ∧ invoked (trace (ask g st req None).2)
    = (if use_langgraph st && staged_available g st
       then [LangGraph] else [RetrievalQA])
  ∧ (staged_available g st = true →
     invoked (trace (ask g st req (Some graph)).2) = [LangGraph])
  ∧ ∀ e prefer,
      (ask g (set_use_langgraph st prefer) req (Some e)).2
      = (ask g st req (Some e)).2.
Proof.
  intros Hvs Hq. split_and!.
  - by destruct (ask_run g st vs req (Some chain) Hvs Hq) as [-> _].
  - destruct (ask_run g st vs req None Hvs Hq) as [-> _].
    unfold use_graph, staged_available. rewrite andb_assoc.
    by destruct (_ && _).
  - intros Hav.
    destruct (ask_run g st vs req (Some graph) Hvs Hq) as [-> _].
    unfold use_graph. unfold staged_available in Hav. by rewrite Hav.
  - intros e prefer. unfold ask, run_pipeline, use_graph. simpl.
    rewrite Hvs. destruct (truthy (strip (question req))); [|done]. simpl.
    destruct e, (LANGGRAPH_AVAILABLE g), (graph_chain st),
      (retrieval_chain st); done.
Qed.

(** C3 (as amended). The sources of a response are the distinct source
    identifiers of the retrieved chunks, each listed once: a permutation
    of their sequence in order of first occurrence; the order itself is
    that of the set and not that of retrieval. *)
Theorem ask_sources_permutation g st req engine ans :
  outcome (ask g st req engine).2 = inr ans →
  ∃ p docs,
    invoked (trace (ask g st req engine).2) = [p]
    ∧ retrieved (trace (ask g st req engine).2) = [docs]
    ∧ sources ans ≡ₚ insertion_order (source_as p <$> docs).
Proof.
  intros Hans.
  destruct (ask_answered_index _ _ _ _ _ Hans) as (vs & Hvs & Hq).
  destruct (ask_run g st vs req engine Hvs Hq) as (Hinv & Hret & _).
  destruct (Hret ans Hans) as (docs & Hd & ->).
  eexists _, docs. split_and!; [done..|].
  apply elements_list_to_set_insertion_order.
Qed.

(** C4. When the chunks retrieved for an answered request carry the
    same source identifier two or more times, the sources of the
    response list that identifier exactly once, whichever pipeline
    answered. A chunk's source identifier is never empty. *)
Theorem ask_sources_listed_once g st req engine ans docs s :
  outcome (ask g st req engine).2 = inr ans →
  retrieved (trace (ask g st req engine).2) = [docs] →
  s ≠ [] →
  2 ≤ occurrences s docs →
  listed s (sources ans) = 1.
Proof.
  intros Hans Hdocs Hs Hocc.
  destruct (ask_answered_index _ _ _ _ _ Hans) as (vs & Hvs & Hq).
  destruct (ask_run g st vs req engine Hvs Hq) as (_ & Hret & _).
  destruct (Hret ans Hans) as (docs' & Hd & ->).
  rewrite Hdocs in Hd. injection Hd as <-.
  apply listed_NoDup; [apply NoDup_elements|].
  apply elem_of_elements, elem_of_list_to_set, list_elem_of_fmap.
  destruct (occurrences_elem s docs) as (d & Hin & Hsrc); [lia|].
  exists d. split; [|done]. symmetry. by apply source_as_source_id.
Qed.

(** C5. A request made while no index exists is refused with the input
    error that the knowledge base is empty; nothing else happens: no
    Embedding Port call, no Generation Port call. *)
Theorem ask_before_ingestion g st req engine :
  vectorstore st = None →
  outcome (ask g st req engine).2 = inl empty_knowledge_base_error
  ∧ input_error (outcome (ask g st req engine).2)
  ∧ trace (ask g st req engine).2 = []
  ∧ no_port_call (trace (ask g st req engine).2).
Proof.
  intros Hvs. rewrite (ask_no_index _ _ _ _ Hvs). simpl.
  split_and!; try done. by eexists.
Qed.

(** C6. With an index, the empty question is refused with an input
    error and no Embedding Port call is made. *)
Theorem ask_empty_question g st vs req engine :
  vectorstore st = Some vs →
  question req = [] →
  outcome (ask g st req engine).2 = inl empty_question_error
  ∧ input_error (outcome (ask g st req engine).2)
  ∧ trace (ask g st req engine).2 = []
  ∧ no_port_call (trace (ask g st req engine).2).
Proof.
  intros Hvs Hq. rewrite (ask_blank _ _ vs); [|done|by rewrite Hq].
  simpl. split_and!; try done. by eexists.
Qed.

(** C10. With an index, a question made of whitespace only is stripped
    to the empty string before the emptiness check, so it is refused
    just as the empty question is, and no Embedding Port call is made. *)
Theorem ask_whitespace_question g st vs req engine :
  vectorstore st = Some vs →
  forallb isspace (question req) = true →
  strip (question req) = []
  ∧ ask g st req engine = ask g st (mkAskRequest []) engine
  ∧ outcome (ask g st req engine).2 = inl empty_question_error
  ∧ trace (ask g st req engine).2 = []
  ∧ no_port_call (trace (ask g st req engine).2).
Proof.
  intros Hvs Hq. apply strip_nil_iff in Hq.
  rewrite (ask_blank _ _ vs req), (ask_blank _ _ vs (mkAskRequest []));
    done.
Qed.

End AskClaims.

(** ** Chunking and persistence *)

Section Ingestion.
Context `{External}.
Import ingestion.

Lemma unknown_nonempty : unknown ≠ [].
Proof. by vm_compute. Qed.

Lemma get_source_or_unknown_nonempty m : get_source_or_unknown m ≠ [].
Proof.
  unfold get_source_or_unknown, str_or.
  destruct (m !! source_key) as [[|c s]|]; simpl;
    auto using unknown_nonempty.
Qed.

Lemma source_id_ensure_source c :
  source_id (ensure_source c) = Some (get_source_or_unknown (metadata c)).
Proof. unfold source_id, ensure_source. simpl. apply lookup_insert_eq. Qed.

(** C8. Every chunk that [split_text_documents] returns is a piece of
    one of the documents and carries a source that is not empty: the
    literal "unknown" when the source of the document is empty or
    absent, and the source of the document otherwise. *)
Theorem split_text_documents_source docs chunk_size chunk_overlap c :
  c ∈ split_text_documents docs chunk_size chunk_overlap →
  ∃ d, d ∈ docs
    ∧ page_content c
      ∈ split_text chunk_size chunk_overlap (page_content d)
    ∧ (∃ s, source_id c = Some s ∧ s ≠ [])
    ∧ (source_id d = None ∨ source_id d = Some [] →
       source_id c = Some unknown)
    ∧ (∀ s, source_id d = Some s → s ≠ [] → source_id c = Some s).
Proof.
  unfold split_text_documents, split_documents.
  intros (c0 & -> & Hc0)%list_elem_of_fmap.
  apply list_elem_of_bind in Hc0 as (d & Hc0 & Hd).
  apply list_elem_of_fmap in Hc0 as (t & -> & Ht).
  exists d. rewrite source_id_ensure_source. simpl.
  split_and!; [done..| | |].
  - eexists. split; [done|]. apply get_source_or_unknown_nonempty.
  - unfold source_id, get_source_or_unknown. by intros [-> | ->].
  - unfold source_id, get_source_or_unknown. intros s -> Hs.
    unfold str_or. by rewrite truthy_true.
Qed.

Lemma path_exists_Some (fs : filesystem) p n :
  fs !! p = Some n → path_exists fs p = true.
Proof.
  intros Hp. unfold path_exists. apply bool_decide_eq_true. by rewrite Hp.
Qed.

Lemma path_exists_None (fs : filesystem) p :
  fs !! p = None → path_exists fs p = false.
Proof.
  intros Hp. unfold path_exists. apply bool_decide_eq_false. rewrite Hp.
  by intros [??].
Qed.

Lemma any_entries (entries : gmap (list N) blob) :
  any_ (elements (dom entries)) = false ↔ entries = ∅.
Proof.
  split.
  - intros Hany. apply (dom_empty_inv_L (D:=gset (list N))).
    apply leibniz_equiv, elements_empty_inv.
    by destruct (elements (dom entries)).
  - intros ->. by rewrite dom_empty_L, elements_empty.
Qed.

(** C7. [load_vectorstore] never raises: it returns a store or [None].
    Where nothing is stored at the path (no such path, or an empty
    directory) it returns [None] and does nothing else. Where loading
    the stored files fails, or the path is not a directory, the
    exception is caught: the result is [None], and with a logger the
    failure is logged as a warning. *)
Theorem load_vectorstore_never_raises index_dir emb logger fs :
  (∃ r, outcome (load_vectorstore index_dir emb logger fs) = inr r)
  ∧ (fs !! index_dir = None ∨ fs !! index_dir = Some (Dir ∅) →
     load_vectorstore index_dir emb logger fs = ([], inr None))
  ∧ (∀ entries t e lg,
       fs !! index_dir = Some (Dir entries) → entries ≠ ∅ →
       load_local fs index_dir emb = (t, inl e) →
       load_vectorstore index_dir emb (Some lg) fs
       = (t ++ [Log WARNING (lit "Could not load FAISS index from %s: %s")
                  [AStr index_dir; AStr (exc_str e)]],
          inr None))
  ∧ (∀ content, fs !! index_dir = Some (File content) →
       outcome (load_vectorstore index_dir emb logger fs) = inr None).
Proof.
  unfold load_vectorstore, iterdir.
  destruct (fs !! index_dir) as [[entries|content]|] eqn:Hp.
  - rewrite (path_exists_Some _ _ _ Hp).
    destruct (any_ (elements (dom entries))) eqn:Hany; simpl;
      rewrite Hany; simpl.
    + assert (entries ≠ ∅) as Hne.
      { intros Hempty. apply any_entries in Hempty. congruence. }
      destruct (load_local fs index_dir emb) as [t [e|vs]] eqn:Hl; simpl.
      * split_and!.
        -- destruct logger; by eexists.
        -- intros [[=]|[= ->]]. done.
        -- by intros ? t' e' lg _ _ [= <- <-].
        -- discriminate.
      * split_and!.
        -- destruct logger; by eexists.
        -- intros [[=]|[= ->]]. done.
        -- discriminate.
        -- discriminate.
    + apply any_entries in Hany as ->. split_and!; eauto.
      by intros ???? [= <-] ?.
  - rewrite (path_exists_Some _ _ _ Hp). simpl. split_and!.
    + destruct logger; by eexists.
    + by intros [[=]|[=]].
    + discriminate.
    + by destruct logger.
  - rewrite (path_exists_None _ _ Hp). simpl. split_and!; eauto; discriminate.
Qed.

End Ingestion.

Section Persistence.
Context `{External}.
Import ingestion.

(** What [save_vectorstore] leaves at the path, when the path is not a
    regular file: a directory that holds the two files of the store. *)
Lemma save_vectorstore_writes (fs : filesystem) vs index_dir logger :
  (∀ content, fs !! index_dir ≠ Some (File content)) →
  ∃ fs' entries,
    outcome (save_vectorstore vs index_dir logger fs) = inr fs'
    ∧ fs' !! index_dir
      = Some (Dir (<[lit "index.pkl" := pickle_dump (docstore vs)]>
                     (<[lit "index.faiss" := write_index (index vs)]>
                        entries))).
Proof.
  intros Hdir. unfold save_vectorstore, save_local, mkdir, write_file.
  destruct (fs !! index_dir) as [[entries|content]|] eqn:Hp.
  - exists (<[index_dir :=
               Dir (<[lit "index.pkl" := pickle_dump (docstore vs)]>
                      (<[lit "index.faiss" := write_index (index vs)]>
                         entries))]>
             (<[index_dir :=
                  Dir (<[lit "index.faiss" := write_index (index vs)]>
                         entries)]> fs)), entries.
    split; [|by rewrite lookup_insert_eq].
    unfold call, mbind, io_bind. simpl. rewrite Hp. simpl.
    rewrite Hp. simpl. rewrite lookup_insert_eq. by destruct logger.
  - by destruct (Hdir content).
  - exists (<[index_dir :=
               Dir (<[lit "index.pkl" := pickle_dump (docstore vs)]>
                      (<[lit "index.faiss" := write_index (index vs)]> ∅))]>
             (<[index_dir :=
                  Dir (<[lit "index.faiss" := write_index (index vs)]> ∅)]>
                (<[index_dir := Dir ∅]> fs))), ∅.
    split; [|by rewrite lookup_insert_eq].
    unfold call, mbind, io_bind. simpl. rewrite lookup_insert_eq. simpl.
    rewrite lookup_insert_eq. simpl. rewrite lookup_insert_eq.
    by destruct logger.
Qed.

(** What [load_vectorstore] returns on a directory that holds the two
    files of a store, when the library reads them back. *)
Lemma load_vectorstore_reads (fs : filesystem) index_dir emb logger
    entries idx ds :
  fs !! index_dir = Some (Dir entries) →
  entries !! lit "index.faiss" = Some (write_index idx) →
  entries !! lit "index.pkl" = Some (pickle_dump ds) →
  read_index (write_index idx) = inr idx →
  pickle_load (pickle_dump ds) = inr ds →
  outcome (load_vectorstore index_dir emb logger fs)
  = inr (Some (mkFAISS emb idx ds)).
Proof.
  intros Hp Hfaiss Hpkl Hidx Hds.
  unfold load_vectorstore, iterdir, load_local, read_file.
  rewrite (path_exists_Some _ _ _ Hp), Hp, Hfaiss, Hpkl.
  destruct (any_ (elements (dom entries))) eqn:Hany.
  - unfold call, mbind, io_bind. simpl. rewrite Hany, Hidx. simpl.
    rewrite Hds. by destruct logger.
  - apply any_entries in Hany as ->. by rewrite lookup_empty in Hfaiss.
Qed.

(** C9. Given that FAISS and pickle read back what they wrote, and that
    the path is not a regular file: the snapshot succeeds, restoring
    from it yields a store with the same index and the same docstore,
    and every search on it returns the same chunks in the same order as
    on the original. *)
Theorem snapshot_restore_round_trip (fs : filesystem) vs index_dir emb
    logger logger' :
  (∀ idx, read_index (write_index idx) = inr idx) →
  (∀ ds, pickle_load (pickle_dump ds) = inr ds) →
  (∀ content, fs !! index_dir ≠ Some (File content)) →
  ∃ fs' vs',
    outcome (save_vectorstore vs index_dir logger fs) = inr fs'
    ∧ outcome (load_vectorstore index_dir emb logger' fs') = inr (Some vs')
    ∧ index vs' = index vs
    ∧ docstore vs' = docstore vs
    ∧ (∀ v k, similarity_search_by_vector vs' v k
              = similarity_search_by_vector vs v k)
    ∧ (emb = embedding_function vs →
       ∀ q k, similarity_search vs' q k = similarity_search vs q k).
Proof.
  intros Hidx Hds Hdir.
  destruct (save_vectorstore_writes fs vs index_dir logger Hdir)
    as (fs' & entries & Hsave & Hp).
  exists fs', (mkFAISS emb (index vs) (docstore vs)).
  split_and!; try done.
  - eapply load_vectorstore_reads; [done| | |done..].
    + rewrite lookup_insert_ne by (apply not_eq_sym, index_files_distinct).
      apply lookup_insert_eq.
    + apply lookup_insert_eq.
  - intros ->. by destruct vs.
Qed.

End Persistence.

(** ** Start of the process *)

Section Startup.
Context `{External}.

Lemma load_vectorstore_missing (fs : filesystem) index_dir emb logger :
  fs !! index_dir = None →
  ingestion.load_vectorstore index_dir emb logger fs = ([], inr None).
Proof.
  intros Hp. unfold ingestion.load_vectorstore.
  by rewrite (path_exists_None _ _ Hp).
Qed.

(** A process started where nothing is stored at the index path has no
    index and no pipeline. *)
Lemma startup_without_snapshot (fs : filesystem) g prefer emb model :
  fs !! main.INDEX_DIR (main.cfg g) = None →
  ∃ t, main.startup g prefer emb model fs
       = (t, inr (main.mkState prefer emb model None None None)).
Proof.
  intros Hp. unfold main.startup.
  rewrite (load_vectorstore_missing _ _ _ _ Hp). by eexists.
Qed.

End Startup.

(** ** The properties on concrete requests *)

(** The order of [list(sources)] depends on the set only, so it cannot
    follow the order of retrieval. *)
Lemma elements_order_forgets_retrieval (l1 l2 : list (list N)) :
  l1 ≡ₚ l2 →
  elements (list_to_set l1 : gset (list N))
  = elements (list_to_set l2 : gset (list N)).
Proof.
  intros Hl. f_equal. apply set_eq. intros x.
  by rewrite !elem_of_list_to_set, Hl.
Qed.

(** C1, as stated, fails: with the staged pipeline unavailable, a
    request with [engine="graph"] is answered by the Chain variant. *)
Lemma ask_graph_unavailable_answered :
  let g := Demo.globals false in
  let r := (main.ask g Demo.chain_only (main.mkAskRequest (lit "hi"))
              (Some main.graph)).2 in
  staged_available g Demo.chain_only = false
  ∧ outcome r = inr (main.mkAnswer (lit "Paris.")
                       [lit "b.txt"; lit "a.txt"])
  ∧ invoked (trace r) = [RetrievalQA]
  ∧ ¬ input_error (outcome r).
Proof.
  split_and!; [by vm_compute..|].
  intros [detail Hd]. vm_compute in Hd. discriminate.
Qed.

Lemma ask_graph_unavailable_falls_back_witness :
  let g := Demo.globals false in
  let req := main.mkAskRequest (lit "hi") in
  main.ask g Demo.chain_only req (Some main.graph)
  = main.ask g Demo.chain_only req (Some main.chain)
  ∧ invoked (trace (main.ask g Demo.chain_only req (Some main.graph)).2)
    = [RetrievalQA]
  ∧ ¬ input_error
        (outcome (main.ask g Demo.chain_only req (Some main.graph)).2).
Proof.
  intros g req.
  destruct (ask_graph_unavailable_falls_back g Demo.chain_only req)
    as [Heq Hrun]; [reflexivity|].
  split; [exact Heq|].
  apply (Hrun Demo.store); [reflexivity|vm_compute; discriminate].
Defined.

Lemma ask_selector_precedence_witness :
  let g := Demo.globals true in
  let req := main.mkAskRequest (lit "hi") in
  invoked (trace (main.ask g Demo.both req (Some main.chain)).2)
  = [RetrievalQA]
  ∧ invoked (trace (main.ask g Demo.both req None).2)
    = (if main.use_langgraph Demo.both && staged_available g Demo.both
       then [LangGraph] else [RetrievalQA])
  ∧ (staged_available g Demo.both = true →
     invoked (trace (main.ask g Demo.both req (Some main.graph)).2)
     = [LangGraph])
  ∧ ∀ e prefer,
      (main.ask g (main.set_use_langgraph Demo.both prefer) req (Some e)).2
      = (main.ask g Demo.both req (Some e)).2.
Proof.
  intros g req.
  apply (ask_selector_precedence g Demo.both Demo.store req);
    [reflexivity|vm_compute; discriminate].
Defined.

(** C3, as stated, fails: the chunks retrieved for this question have
    the sources a.txt, b.txt, b.txt, in that order, and the response
    lists b.txt before a.txt. *)
Lemma ask_sources_not_in_retrieval_order :
  let r := (main.ask (Demo.globals false) Demo.chain_only
              (main.mkAskRequest (lit "hey")) None).2 in
  ∃ ans docs,
    outcome r = inr ans
    ∧ retrieved (trace r) = [docs]
    ∧ insertion_order (qa.source_of <$> docs) = [lit "a.txt"; lit "b.txt"]
    ∧ main.sources ans = [lit "b.txt"; lit "a.txt"]
    ∧ main.sources ans ≠ insertion_order (qa.source_of <$> docs).
Proof.
  eexists _, _. split_and!; [by vm_compute..|].
  vm_compute. discriminate.
Qed.

Lemma ask_sources_permutation_witness :
  let r := (main.ask (Demo.globals false) Demo.chain_only
              (main.mkAskRequest (lit "hey")) None).2 in
  ∃ p docs,
    invoked (trace r) = [p]
    ∧ retrieved (trace r) = [docs]
    ∧ [lit "b.txt"; lit "a.txt"]
      ≡ₚ insertion_order (source_as p <$> docs).
Proof.
  intros r.
  apply (ask_sources_permutation (Demo.globals false) Demo.chain_only
           (main.mkAskRequest (lit "hey")) None
           (main.mkAnswer (lit "Paris.") [lit "b.txt"; lit "a.txt"])).
  vm_compute. reflexivity.
Defined.

Lemma ask_sources_listed_once_witness :
  let req := main.mkAskRequest (lit "hi") in
  let ans := main.mkAnswer (lit "Paris.") [lit "b.txt"; lit "a.txt"] in
  (outcome (main.ask (Demo.globals true) Demo.both req
              (Some main.chain)).2 = inr ans
   ∧ listed (lit "b.txt") (main.sources ans) = 1)
  ∧ (outcome (main.ask (Demo.globals true) Demo.both req
                (Some main.graph)).2 = inr ans
     ∧ listed (lit "b.txt") (main.sources ans) = 1).
Proof.
  intros req ans. split; (split; [vm_compute; reflexivity|]).
  - apply (ask_sources_listed_once (Demo.globals true) Demo.both req
             (Some main.chain) ans Demo.chunks (lit "b.txt"));
      [vm_compute; reflexivity | vm_compute; reflexivity
      | vm_compute; discriminate | vm_compute; lia].
  - apply (ask_sources_listed_once (Demo.globals true) Demo.both req
             (Some main.graph) ans Demo.chunks (lit "b.txt"));
      [vm_compute; reflexivity | vm_compute; reflexivity
      | vm_compute; discriminate | vm_compute; lia].
Defined.

Lemma ask_before_ingestion_witness :
  let r := (main.ask (Demo.globals true) Demo.empty
              (main.mkAskRequest (lit "What is the capital of France?"))
              None).2 in
  outcome r = inl empty_knowledge_base_error
  ∧ input_error (outcome r)
  ∧ trace r = []
  ∧ no_port_call (trace r).
Proof.
  intros r.
  apply (ask_before_ingestion (Demo.globals true) Demo.empty).
  reflexivity.
Defined.

Lemma ask_empty_question_witness :
  let r := (main.ask (Demo.globals true) Demo.both (main.mkAskRequest [])
              None).2 in
  outcome r = inl empty_question_error
  ∧ input_error (outcome r)
  ∧ trace r = []
  ∧ no_port_call (trace r).
Proof.
  intros r.
  apply (ask_empty_question (Demo.globals true) Demo.both Demo.store);
    reflexivity.
Defined.

(** A question of a space, a tab, an em space and a line feed. *)
Lemma ask_whitespace_question_witness :
  let req := main.mkAskRequest [32; 9; 8195; 10]%N in
  let r := (main.ask (Demo.globals true) Demo.both req None).2 in
  strip (main.question req) = []
  ∧ main.ask (Demo.globals true) Demo.both req None
    = main.ask (Demo.globals true) Demo.both (main.mkAskRequest []) None
  ∧ outcome r = inl empty_question_error
  ∧ trace r = []
  ∧ no_port_call (trace r).
Proof.
  intros req r.
  apply (ask_whitespace_question (Demo.globals true) Demo.both Demo.store);
    reflexivity.
Defined.

Lemma load_vectorstore_never_raises_witness :
  let lg := GetLogger (lit "mini-rag") in
  (∃ r, outcome (ingestion.load_vectorstore (lit "data/index") Demo.embed
                   (Some lg) Demo.corrupt) = inr r)
  ∧ ingestion.load_vectorstore (lit "data/index") Demo.embed (Some lg)
      Demo.corrupt
    = ([Log WARNING (lit "Could not load FAISS index from %s: %s")
          [AStr (lit "data/index");
           AStr (lit "RuntimeError: not a FAISS index")]],
       inr None).
Proof.
  intros lg.
  destruct (load_vectorstore_never_raises (H:=Demo.external)
              (lit "data/index") Demo.embed
              (Some lg) Demo.corrupt) as (Hret & _ & Hcorrupt & _).
  split; [exact Hret|].
  apply (Hcorrupt {[ lit "index.faiss" := Demo.Garbage ]} []
           (Exception (lit "RuntimeError: not a FAISS index")) lg);
    [vm_compute; reflexivity | vm_compute; discriminate
    | vm_compute; reflexivity].
Defined.

Lemma split_text_documents_source_witness :
  let c := mkDocument (lit "hell")
             {[ ingestion.source_key := ingestion.unknown ]} in
  ∃ d, d ∈ [Demo.anonymous]
    ∧ page_content c ∈ split_text 4 1 (page_content d)
    ∧ (∃ s, source_id c = Some s ∧ s ≠ [])
    ∧ (source_id d = None ∨ source_id d = Some [] →
       source_id c = Some ingestion.unknown)
    ∧ (∀ s, source_id d = Some s → s ≠ [] → source_id c = Some s).
Proof.
  intros c.
  apply (split_text_documents_source (H:=Demo.external)
           [Demo.anonymous] 4 1 c).
  vm_compute. left.
Defined.

Lemma snapshot_restore_round_trip_witness :
  ∃ fs' vs',
    outcome (ingestion.save_vectorstore Demo.store (lit "data/index") None ∅)
    = inr fs'
    ∧ outcome (ingestion.load_vectorstore (lit "data/index") Demo.embed
                 None fs') = inr (Some vs')
    ∧ index vs' = index Demo.store
    ∧ docstore vs' = docstore Demo.store
    ∧ (∀ v k, similarity_search_by_vector vs' v k
              = similarity_search_by_vector Demo.store v k)
    ∧ (Demo.embed = embedding_function Demo.store →
       ∀ q k, similarity_search vs' q k = similarity_search Demo.store q k).
Proof.
  apply (snapshot_restore_round_trip (H:=Demo.external) ∅ Demo.store
           (lit "data/index") Demo.embed None None);
    [reflexivity | reflexivity | vm_compute; discriminate].
Defined.

(** * Further properties of the code *)

Lemma str_or_nil_r (a : list N) : str_or a [] = a.
Proof. by destruct a. Qed.

Section PipelineEquations.
Context `{External}.

Ltac io_unfold :=
  unfold qa.answer_with_sources, qa.invoke, qa_graph.answer_with_langgraph,
    qa_graph.invoke, qa_graph.retrieve, qa_graph.generate,
    qa_graph.state_question, qa_graph.update,
    similarity_search, embed_query, llm_invoke, log_if,
    call, emit, raise, trace, outcome, mbind, io_bind, mret, io_ret in *.

(** The Chain pipeline, by the outcomes of its two provider calls. *)
Lemma answer_with_sources_eq c q :
  qa.answer_with_sources c q
  = match embedding_function (qa.rc_vectorstore c) q with
    | inl e => ([Invoke RetrievalQA q; EmbedCall q], inl e)
    | inr v =>
        let hits :=
          similarity_search_by_vector (qa.rc_vectorstore c) v (qa.rc_k c) in
        let t := [Invoke RetrievalQA q; EmbedCall q;
                  SearchCall (qa.rc_k c) hits;
                  GenerateCall (chain_input hits q)] in
        match qa.rc_llm c (chain_input hits q) with
        | inl e => (t, inl e)
        | inr a => (t, inr (a, list_to_set (qa.source_of <$> hits)))
        end
    end.
Proof.
  io_unfold. unfold chain_input.
  destruct (embedding_function (qa.rc_vectorstore c) q) as [e|v];
    simpl; [done|].
  destruct (qa.rc_llm c _) as [e|a]; simpl; [done|].
  by rewrite list_or_nil_r, collect_sources_set, str_or_nil_r.
Qed.

(** The staged pipeline, likewise. *)
Lemma answer_with_langgraph_eq c q :
  qa_graph.answer_with_langgraph c q
  = match embedding_function (qa_graph.g_vectorstore c) q with
    | inl e => ([Invoke LangGraph q; EmbedCall q], inl e)
    | inr v =>
        let hits :=
          similarity_search_by_vector (qa_graph.g_vectorstore c) v
            (qa_graph.g_k c) in
        let t := [Invoke LangGraph q; EmbedCall q;
                  SearchCall (qa_graph.g_k c) hits]
                 ++ trace (log_if (qa_graph.g_logger c) INFO
                             (lit "Retrieved %d docs for question='%s'")
                             [AInt (Z.of_nat (List.length hits)); AStr q])
                 ++ [GenerateCall (graph_input hits q)] in
        match qa_graph.g_llm c (graph_input hits q) with
        | inl e => (t, inl e)
        | inr text =>
            (t, inr (text, list_to_set (qa_graph.source_of <$> hits)))
        end
    end.
Proof.
  io_unfold. unfold graph_input. simpl.
  destruct (embedding_function (qa_graph.g_vectorstore c) q) as [e|v];
    simpl; [done|].
  destruct (qa_graph.g_logger c); simpl;
    by destruct (qa_graph.g_llm c _) as [e|a].
Qed.
End PipelineEquations.

Section AskShape.
Context `{External}.
Import main.

(** The state after [ask]: only the Chain branch assigns, and only a
    retrieval chain that was missing. *)
Lemma ask_state g st req engine :
  (ask g st req engine).1
  = match vectorstore st with
    | None => st
    | Some vs =>
        if truthy (strip (question req)) && negb (use_graph g st engine)
        then match retrieval_chain st with
             | Some _ => st
             | None =>
                 set_retrieval_chain st
                   (qa.mkRetrievalChain (llm st) vs (TOP_K (cfg g)))
             end
        else st
    end.
Proof.
  unfold ask, run_pipeline. destruct (vectorstore st) as [vs|]; [|done].
  destruct (truthy (strip (question req))); [|done]. simpl.
  destruct (use_graph g st engine); [done|]. simpl.
  by destruct (retrieval_chain st).
Qed.

Lemma ask_decompose g st vs req engine :
  vectorstore st = Some vs →
  strip (question req) ≠ [] →
  ∃ pre r lvl msg args,
    (pre = [] ∨ ∃ m, pre = [Log INFO m []])
    ∧ ((use_graph g st engine = true ∧ pre = []
        ∧ ∃ c, graph_chain st = Some c
               ∧ r = qa_graph.answer_with_langgraph c
                       (strip (question req)))
       ∨ (use_graph g st engine = false
          ∧ ∃ c, r = qa.answer_with_sources c (strip (question req))
                 ∧ (retrieval_chain st = Some c
                    ∨ retrieval_chain st = None
                      ∧ c = qa.mkRetrievalChain (llm st) vs
                              (TOP_K (cfg g)))))
    ∧ trace (ask g st req engine).2 = pre ++ trace r ++ [Log lvl msg args]
    ∧ outcome (ask g st req engine).2 = ask_outcome (outcome r)
    ∧ (∀ e, outcome r = inl e →
            Log lvl msg args
            = Log ERROR (lit "Failed to answer question") []).
Proof.
  intros Hvs Hq. unfold ask, run_pipeline, try_except.
  rewrite Hvs, (truthy_true _ Hq). simpl negb. cbv iota.
  destruct (use_graph g st engine) eqn:Hsel.
  - destruct (use_graph_chain _ _ _ Hsel) as [c Hc]. rewrite Hc.
    exists [], (qa_graph.answer_with_langgraph c (strip (question req))).
    destruct (qa_graph.answer_with_langgraph c (strip (question req)))
      as [t [e|[a S]]] eqn:Hr; simpl; eexists _, _, _;
      (split_and!;
         [by left|left; rewrite <- Hr; eauto|by rewrite ?app_nil_r|done|]);
      by intros ? [=].
  - destruct (retrieval_chain st) as [c|] eqn:Hc; simpl.
    + exists [], (qa.answer_with_sources c (strip (question req))).
      destruct (qa.answer_with_sources c (strip (question req)))
        as [t [e|[a S]]] eqn:Hr; simpl; eexists _, _, _;
        (split_and!;
           [by left|right; rewrite <- Hr; eauto
           |by rewrite ?app_nil_r|done|]);
        by intros ? [=].
    + eexists _,
        (qa.answer_with_sources
           (qa.mkRetrievalChain (llm st) vs (TOP_K (cfg g)))
           (strip (question req))).
      destruct (qa.answer_with_sources _ (strip (question req)))
        as [t [e|[a S]]] eqn:Hr; simpl; eexists _, _, _;
        (split_and!;
           [right; eauto|right; rewrite <- Hr; eauto 10
           |by rewrite ?app_nil_r|done|]);
        by intros ? [=].
Qed.

End AskShape.

Lemma port_calls_app t1 t2 :
  port_calls (t1 ++ t2) = port_calls t1 ++ port_calls t2.
Proof. apply filter_app. Qed.

Lemma metadata_or_empty_id d : metadata_or_empty d = metadata d.
Proof. unfold metadata_or_empty. by destruct (decide _) as [->|]. Qed.

Section AskFurther.
Context `{External}.
Import main.

Lemma hits_in_docstore vs v k d :
  d ∈ similarity_search_by_vector vs v k → d ∈ docstore vs.
Proof.
  unfold similarity_search_by_vector.
  intros (i & _ & Hi)%list_elem_of_omap. by eapply list_elem_of_lookup_2.
Qed.

Lemma consistent_retrieval_chain g st vs c :
  chains_consistent g st →
  vectorstore st = Some vs →
  retrieval_chain st = Some c →
  c = qa.mkRetrievalChain (llm st) vs (TOP_K (cfg g)).
Proof.
  intros [Hrc _] Hvs Hc. destruct (Hrc c Hc) as (Hv & Hk & Hl).
  rewrite Hvs in Hv. injection Hv as ->. destruct c; simpl in *.
  by subst.
Qed.

Lemma consistent_graph_chain g st vs c :
  chains_consistent g st →
  vectorstore st = Some vs →
  graph_chain st = Some c →
  c = qa_graph.build_langgraph_chain (llm st) vs (TOP_K (cfg g))
        (Some (logger g)).
Proof.
  intros [_ Hgc] Hvs Hc. destruct (Hgc c Hc) as (_ & Hv & Hk & Hl & Hlg).
  rewrite Hvs in Hv. injection Hv as ->. destruct c; simpl in *.
  by subst.
Qed.

(** With consistent pipelines, [ask] is the run of the pipeline built
    over the store of [app.state], between log records. *)
Lemma ask_consistent g st vs req engine :
  chains_consistent g st →
  vectorstore st = Some vs →
  strip (question req) ≠ [] →
  ∃ pre lvl msg args,
    (pre = [] ∨ ∃ m, pre = [Log INFO m []])
    ∧ trace (ask g st req engine).2
      = pre ++ trace (built_run g st vs (strip (question req))
                        (use_graph g st engine))
        ++ [Log lvl msg args]
    ∧ outcome (ask g st req engine).2
      = ask_outcome (outcome (built_run g st vs (strip (question req))
                                (use_graph g st engine)))
    ∧ (∀ e, outcome (built_run g st vs (strip (question req))
                       (use_graph g st engine)) = inl e →
            Log lvl msg args
            = Log ERROR (lit "Failed to answer question") []).
Proof.
  intros Hcons Hvs Hq.
  destruct (ask_decompose g st vs req engine Hvs Hq)
    as (pre & r & lvl & msg & args & Hpre & Hr & Ht & Ho & Hl).
  exists pre, lvl, msg, args. unfold built_run.
  destruct Hr as [(-> & _ & c & Hc & ->)|(-> & c & -> & Hc)].
  - by rewrite <- (consistent_graph_chain g st vs c).
  - assert (c = qa.mkRetrievalChain (llm st) vs (TOP_K (cfg g))) as <-;
      [|done].
    destruct Hc as [Hc|[_ ->]]; [|done].
    by apply (consistent_retrieval_chain g st vs c).
Qed.

(** The run of a built pipeline, seen through the trace projections. *)
Lemma built_run_cases g st vs q b :
  let r := built_run g st vs q b in
  let p := pipeline_of b in
  invoked (trace r) = [p]
  ∧ match embedding_function vs q with
    | inl e =>
        outcome r = inl e ∧ port_calls (trace r) = [EmbedCall q]
        ∧ retrieved (trace r) = []
    | inr v =>
        let hits := similarity_search_by_vector vs v (TOP_K (cfg g)) in
        port_calls (trace r)
        = [EmbedCall q; GenerateCall (input_as p hits q)]
        ∧ retrieved (trace r) = [hits]
        ∧ outcome r
          = match llm st (input_as p hits q) with
            | inl e => inl e
            | inr a => inr (a, list_to_set (source_as p <$> hits))
            end
    end.
Proof.
  unfold built_run. destruct b; simpl.
  - rewrite answer_with_langgraph_eq. simpl.
    destruct (embedding_function vs q) as [e|v]; simpl; [done|].
    by destruct (llm st _).
  - rewrite answer_with_sources_eq. simpl.
    destruct (embedding_function vs q) as [e|v]; simpl; [done|].
    by destruct (llm st _).
Qed.

End AskFurther.

Lemma source_of_agree d :
  qa.source_of d = qa_graph.source_of d ↔ source_id d ≠ Some [].
Proof.
  unfold qa.source_of, qa_graph.source_of, ingestion.get_source_or_unknown,
    source_id.
  rewrite metadata_or_empty_id.
  destruct (metadata d !! ingestion.source_key) as [[|c s]|]; simpl.
  - split; [|done]. intros Hu. by vm_compute in Hu.
  - done.
  - done.
Qed.

(** X8. The two pipelines read the same source off a chunk exactly
    when its stored source is not the empty string: the Chain variant
    reads an empty source as "unknown", the staged variant keeps it. *)
Theorem source_of_agree_iff d :
  qa.source_of d = qa_graph.source_of d ↔ source_id d ≠ Some [].
Proof. apply source_of_agree. Qed.

Section AskExtras.
Context `{External}.
Import main.

Ltac trace_logs Hpre :=
  rewrite ?invoked_app, ?retrieved_app, ?port_calls_app;
  destruct Hpre as [->|[? ->]]; simpl; rewrite ?app_nil_r.

(** An answered request, by the pipeline that ran and the chunks it
    found. *)
Lemma ask_answered_run g st req engine ans :
  outcome (ask g st req engine).2 = inr ans →
  ∃ p hits a,
    invoked (trace (ask g st req engine).2) = [p]
    ∧ retrieved (trace (ask g st req engine).2) = [hits]
    ∧ port_calls (trace (ask g st req engine).2)
      = [EmbedCall (strip (question req));
         GenerateCall (input_as p hits (strip (question req)))]
    ∧ ans = mkAnswer a (elements (list_to_set (source_as p <$> hits)
                                  : gset (list N))).
Proof.
  intros Hans.
  destruct (ask_answered_index _ _ _ _ _ Hans) as (vs & Hvs & Hq).
  destruct (ask_decompose g st vs req engine Hvs Hq)
    as (pre & r & lvl & msg & args & Hpre & Hr & Ht & Ho & _).
  rewrite Ho in Hans. rewrite Ht. clear Ht Ho.
  destruct Hr as [(_ & _ & c & _ & ->)|(_ & c & -> & _)].
  - rewrite answer_with_langgraph_eq in *.
    destruct (embedding_function _ _) as [e|v]; [done|]. simpl in *.
    destruct (qa_graph.g_llm c _) as [e|a]; [done|]. simpl in *.
    injection Hans as <-. exists LangGraph. eexists _, a.
    trace_logs Hpre; by destruct (qa_graph.g_logger c).
  - rewrite answer_with_sources_eq in *.
    destruct (embedding_function _ _) as [e|v]; [done|]. simpl in *.
    destruct (qa.rc_llm c _) as [e|a]; [done|]. simpl in *.
    injection Hans as <-. exists RetrievalQA. eexists _, a.
    by trace_logs Hpre.
Qed.


(** X1. A request to [ask] never changes the index, the providers,
    the default preference or the staged pipeline of [app.state]. The
    only assignment it can make is to build the retrieval chain when it
    was missing, from the model and the store of [app.state] and
    [cfg.TOP_K]; with a retrieval chain in place the state is left as
    it is. *)
Theorem ask_changes_only_retrieval_chain g st req engine :
  let st' := (ask g st req engine).1 in
  use_langgraph st' = use_langgraph st
  ∧ embeddings st' = embeddings st
  ∧ llm st' = llm st
  ∧ vectorstore st' = vectorstore st
  ∧ graph_chain st' = graph_chain st
  ∧ (retrieval_chain st' = retrieval_chain st
     ∨ retrieval_chain st = None
       ∧ ∃ vs, vectorstore st = Some vs
               ∧ retrieval_chain st'
                 = Some (qa.mkRetrievalChain (llm st) vs (TOP_K (cfg g))))
  ∧ (is_not_None (retrieval_chain st) = true → st' = st).
Proof.
  simpl. rewrite ask_state.
  destruct (vectorstore st) as [vs|] eqn:Hvs; [|by split_and!; auto].
  destruct (truthy _ && negb _); [|by split_and!; auto].
  destruct (retrieval_chain st) as [c|] eqn:Hc; simpl.
  - split_and!; auto.
  - split_and!; eauto 10; discriminate.
Qed.

(** X2. [ask] keeps the pipelines consistent with [app.state]: if each
    pipeline is over the store of [app.state], with [cfg.TOP_K] and its
    model, then so it is after the request. *)
Theorem ask_keeps_chains_consistent g st req engine :
  chains_consistent g st →
  chains_consistent g (ask g st req engine).1.
Proof.
  intros Hcons. rewrite ask_state.
  destruct (vectorstore st) as [vs|] eqn:Hvs; [|done].
  destruct (truthy _ && negb _); [|done].
  destruct (retrieval_chain st) as [c|] eqn:Hc; [done|].
  destruct Hcons as [Hrc Hgc]. split.
  - simpl. by intros c [= <-].
  - simpl. intros c Hg. destruct (Hgc c Hg) as (?&?&?&?&?). done.
Qed.

(** X3. An answered request calls each port exactly once, the
    Embedding Port first, on the stripped question, and then the
    Generation Port on the prompt that the pipeline which ran makes of
    the chunks found and the stripped question. *)
Theorem ask_answered_port_calls g st req engine ans :
  outcome (ask g st req engine).2 = inr ans →
  ∃ p hits,
    invoked (trace (ask g st req engine).2) = [p]
    ∧ retrieved (trace (ask g st req engine).2) = [hits]
    ∧ port_calls (trace (ask g st req engine).2)
      = [EmbedCall (strip (question req));
         GenerateCall (input_as p hits (strip (question req)))].
Proof.
  intros Hans.
  destruct (ask_answered_run g st req engine ans Hans)
    as (p & hits & a & ? & ? & ? & _).
  by exists p, hits.
Qed.

(** X4. When the Embedding Port raises on the stripped question, the
    request fails with status 500 and the detail "Answering failed: "
    followed by the text of that exception; the Generation Port is not
    called, no search is made, and the failure is logged last. *)
Theorem ask_embedding_failure g st vs req engine e :
  chains_consistent g st →
  vectorstore st = Some vs →
  strip (question req) ≠ [] →
  embedding_function vs (strip (question req)) = inl e →
  outcome (ask g st req engine).2
  = inl (HTTPException 500 (lit "Answering failed: " ++ exc_str e))
  ∧ port_calls (trace (ask g st req engine).2)
    = [EmbedCall (strip (question req))]
  ∧ retrieved (trace (ask g st req engine).2) = []
  ∧ last (trace (ask g st req engine).2)
    = Some (Log ERROR (lit "Failed to answer question") []).
Proof.
  intros Hcons Hvs Hq Hemb.
  destruct (ask_consistent g st vs req engine Hcons Hvs Hq)
    as (pre & lvl & msg & args & Hpre & Ht & Ho & Hl).
  destruct (built_run_cases g st vs (strip (question req))
              (use_graph g st engine)) as [_ Hrun].
  simpl in Hrun. rewrite Hemb in Hrun. destruct Hrun as (Hr & Hp & Hs).
  rewrite Ho, Ht, Hr, (Hl e Hr). split; [done|].
  rewrite !port_calls_app, !retrieved_app, Hp, Hs, !app_assoc, last_snoc.
  by destruct Hpre as [->|[? ->]].
Qed.


(** X6. When the search finds no chunk, the request is still answered:
    the model is called with the empty context and the response has no
    sources. *)
Theorem ask_empty_retrieval g st req engine ans :
  outcome (ask g st req engine).2 = inr ans →
  retrieved (trace (ask g st req engine).2) = [[]] →
  sources ans = []
  ∧ ∃ p,
      invoked (trace (ask g st req engine).2) = [p]
      ∧ port_calls (trace (ask g st req engine).2)
        = [EmbedCall (strip (question req));
           GenerateCall (input_as p [] (strip (question req)))].
Proof.
  intros Hans Hret.
  destruct (ask_answered_run g st req engine ans Hans)
    as (p & hits & a & Hi & Hr & Hp & ->).
  rewrite Hr in Hret. injection Hret as ->. split.
  - simpl. apply elements_empty.
  - by exists p.
Qed.

(** X7. Every source listed in a response is the source, as the
    pipeline that ran reads it, of a chunk held in the docstore of the
    index. *)
Theorem ask_sources_come_from_index g st vs req engine ans s :
  chains_consistent g st →
  vectorstore st = Some vs →
  outcome (ask g st req engine).2 = inr ans →
  s ∈ sources ans →
  ∃ d, d ∈ docstore vs
       ∧ source_as (pipeline_of (use_graph g st engine)) d = s.
Proof.
  intros Hcons Hvs Hans Hs.
  destruct (ask_answered_index _ _ _ _ _ Hans) as (vs' & Hvs' & Hq).
  destruct (ask_consistent g st vs req engine Hcons Hvs Hq)
    as (pre & lvl & msg & args & _ & _ & Ho & _).
  destruct (built_run_cases g st vs (strip (question req))
              (use_graph g st engine)) as [_ Hrun].
  rewrite Ho in Hans. simpl in Hrun.
  destruct (embedding_function vs _) as [e|v].
  - destruct Hrun as [Hr _]. by rewrite Hr in Hans.
  - destruct Hrun as (_ & _ & Hr). rewrite Hr in Hans.
    destruct (llm st _) as [e|a]; [done|]. simpl in Hans.
    injection Hans as <-. simpl in Hs.
    apply elem_of_elements, elem_of_list_to_set, list_elem_of_fmap in Hs
      as (d & -> & Hd).
    exists d. split; [|done]. by eapply hits_in_docstore.
Qed.

(** X9. When no chunk of the index has an empty source, a request
    answered through [engine="chain"] and through [engine="graph"] lists
    the same sources in both responses. *)
Theorem ask_engines_agree_on_sources g st vs req a1 a2 :
  chains_consistent g st →
  vectorstore st = Some vs →
  (∀ d, d ∈ docstore vs → source_id d ≠ Some []) →
  outcome (ask g st req (Some chain)).2 = inr a1 →
  outcome (ask g st req (Some graph)).2 = inr a2 →
  sources a1 = sources a2.
Proof.
  intros Hcons Hvs Hsrc H1 H2.
  destruct (ask_answered_index _ _ _ _ _ H1) as (vs' & Hvs' & Hq).
  destruct (ask_consistent g st vs req (Some chain) Hcons Hvs Hq)
    as (? & ? & ? & ? & _ & _ & Ho1 & _).
  destruct (ask_consistent g st vs req (Some graph) Hcons Hvs Hq)
    as (? & ? & ? & ? & _ & _ & Ho2 & _).
  rewrite Ho1 in H1. rewrite Ho2 in H2. clear Ho1 Ho2.
  set (b1 := use_graph g st (Some chain)) in *.
  set (b2 := use_graph g st (Some graph)) in *.
  destruct (built_run_cases g st vs (strip (question req)) b1)
    as [_ Hrun1].
  destruct (built_run_cases g st vs (strip (question req)) b2)
    as [_ Hrun2].
  cbv zeta in Hrun1, Hrun2.
  destruct (embedding_function vs _) as [e|v].
  - destruct Hrun1 as [Hr _]. by rewrite Hr in H1.
  - destruct Hrun1 as (_ & _ & Hr1). destruct Hrun2 as (_ & _ & Hr2).
    rewrite Hr1 in H1. rewrite Hr2 in H2.
    destruct (llm st (input_as (pipeline_of b1) _ _)) as [?|c1]; [done|].
    destruct (llm st (input_as (pipeline_of b2) _ _)) as [?|c2]; [done|].
    simpl in H1, H2. injection H1 as <-. injection H2 as <-. simpl.
    do 2 f_equal. apply list_fmap_ext. intros i d Hd.
    assert (d ∈ docstore vs) as Hin.
    { eapply hits_in_docstore, list_elem_of_lookup_2, Hd. }
    apply Hsrc, source_of_agree in Hin.
    by destruct b1, b2.
Qed.

End AskExtras.

Section PersistenceFurther.
Context `{External} `{!VectorStoreOps}.
Import ingestion.

(** [FAISS.load_local] reads the two files and decodes them, in that
    order; it calls no port. *)
Lemma load_local_eq (fs : filesystem) folder emb :
  load_local fs folder emb
  = ([],
     match read_file fs folder (lit "index.faiss") with
     | inl e => inl e
     | inr b =>
         match read_index b with
         | inl e => inl e
         | inr idx =>
             match read_file fs folder (lit "index.pkl") with
             | inl e => inl e
             | inr p =>
                 match pickle_load p with
                 | inl e => inl e
                 | inr ds => inr (mkFAISS emb idx ds)
                 end
             end
         end
     end).
Proof.
  unfold load_local, call, mbind, io_bind, mret, io_ret.
  destruct (read_file fs folder (lit "index.faiss")) as [?|b]; [done|].
  destruct (read_index b) as [?|idx]; [done|].
  destruct (read_file fs folder (lit "index.pkl")) as [?|p]; [done|].
  by destruct (pickle_load p).
Qed.

(** [load_vectorstore], by what is at the path. *)
Lemma load_vectorstore_eq (fs : filesystem) index_dir emb logger :
  load_vectorstore index_dir emb logger fs
  = match fs !! index_dir with
    | None => ([], inr None)
    | Some (File _) =>
        (trace (log_if logger WARNING
                  (lit "Could not load FAISS index from %s: %s")
                  [AStr index_dir; AStr (lit "NotADirectoryError")]),
         inr None)
    | Some (Dir entries) =>
        if decide (entries = ∅) then ([], inr None)
        else
          match outcome (load_local fs index_dir emb) with
          | inr vs =>
              (trace (log_if logger INFO (lit "Loaded FAISS index from %s")
                        [AStr index_dir]),
               inr (Some vs))
          | inl e =>
              (trace (log_if logger WARNING
                        (lit "Could not load FAISS index from %s: %s")
                        [AStr index_dir; AStr (exc_str e)]),
               inr None)
          end
    end.
Proof.
  unfold load_vectorstore, iterdir.
  destruct (fs !! index_dir) as [[entries|content]|] eqn:Hp.
  - rewrite (path_exists_Some _ _ _ Hp).
    destruct (decide (entries = ∅)) as [->|Hne].
    + by rewrite dom_empty_L, elements_empty.
    + destruct (any_ (elements (dom entries))) eqn:Hany;
        [|by apply any_entries in Hany].
      rewrite load_local_eq. unfold outcome. simpl. rewrite Hany. simpl.
      destruct (read_file fs index_dir (lit "index.faiss")) as [?|b];
        [by destruct logger|].
      destruct (read_index b) as [?|idx]; [by destruct logger|].
      destruct (read_file fs index_dir (lit "index.pkl")) as [?|p];
        [by destruct logger|].
      destruct (pickle_load p); by destruct logger.
  - rewrite (path_exists_Some _ _ _ Hp). by destruct logger.
  - by rewrite (path_exists_None _ _ Hp).
Qed.

(** [save_vectorstore], by what is at the path. *)
Lemma save_vectorstore_eq (fs : filesystem) vs index_dir logger :
  save_vectorstore vs index_dir logger fs
  = match fs !! index_dir with
    | Some (File _) => ([], inl (Exception (lit "FileExistsError")))
    | other =>
        let entries :=
          match other with Some (Dir entries) => entries | _ => ∅ end in
        (trace (log_if logger INFO (lit "Saved FAISS index to %s")
                  [AStr index_dir]),
         inr (<[index_dir :=
                  Dir (<[lit "index.pkl" := pickle_dump (docstore vs)]>
                         (<[lit "index.faiss" := write_index (index vs)]>
                            entries))]> fs))
    end.
Proof.
  unfold save_vectorstore, save_local, mkdir, write_file, call, mbind,
    io_bind.
  destruct (fs !! index_dir) as [[entries|content]|] eqn:Hp; simpl.
  - rewrite Hp. simpl. rewrite Hp. simpl. rewrite lookup_insert_eq.
    destruct logger; simpl; by rewrite insert_insert_eq.
  - done.
  - rewrite lookup_insert_eq. simpl. rewrite lookup_insert_eq. simpl.
    rewrite lookup_insert_eq.
    destruct logger; simpl; by rewrite !insert_insert_eq.
Qed.

End PersistenceFurther.

Section PersistenceExtras.
Context `{External} `{!VectorStoreOps}.
Import ingestion.

Lemma log_if_no_port logger lvl msg args :
  port_calls (trace (log_if logger lvl msg args)) = [].
Proof. by destruct logger. Qed.


(** X12. [load_vectorstore] returns a store exactly when the path is a
    directory holding both files of a store and both decode; the store
    has the decoded index and docstore and the embeddings passed in. *)
Theorem load_vectorstore_some_iff (fs : filesystem) index_dir emb logger vs :
  outcome (load_vectorstore index_dir emb logger fs) = inr (Some vs)
  ↔ ∃ entries b p,
      fs !! index_dir = Some (Dir entries)
      ∧ entries !! lit "index.faiss" = Some b
      ∧ entries !! lit "index.pkl" = Some p
      ∧ read_index b = inr (index vs)
      ∧ pickle_load p = inr (docstore vs)
      ∧ embedding_function vs = emb.
Proof.
  rewrite load_vectorstore_eq, load_local_eq. unfold read_file, outcome.
  split.
  - destruct (fs !! index_dir) as [[entries|content]|] eqn:Hp; simpl;
      [|done..].
    destruct (decide (entries = ∅)); [done|]. simpl.
    destruct (entries !! lit "index.faiss") as [b|] eqn:Hb; [|done].
    destruct (read_index b) as [?|idx] eqn:Hidx; [done|].
    destruct (entries !! lit "index.pkl") as [p|] eqn:Hpk; [|done].
    destruct (pickle_load p) as [?|ds] eqn:Hds; [done|].
    simpl. intros [= <-]. by exists entries, b, p.
  - intros (entries & b & p & -> & Hb & Hp & Hidx & Hds & <-). simpl.
    destruct (decide (entries = ∅)) as [->|_];
      [by rewrite lookup_empty in Hb|].
    simpl. rewrite Hb, Hidx, Hp, Hds. simpl. by destruct vs.
Qed.

End PersistenceExtras.

Section StartupExtras.
Context `{External} `{!VectorStoreOps}.
Import main.

Lemma load_vectorstore_total (fs : filesystem) index_dir emb logger :
  ∃ t o, ingestion.load_vectorstore index_dir emb logger fs = (t, inr o)
         ∧ port_calls t = [].
Proof.
  rewrite load_vectorstore_eq.
  destruct (fs !! index_dir) as [[entries|content]|].
  - destruct (decide (entries = ∅)); [by eexists _, _|].
    destruct (outcome _); eexists _, _; split; try done;
      apply log_if_no_port.
  - eexists _, _; split; [done|]. apply log_if_no_port.
  - by eexists _, _.
Qed.


End StartupExtras.

Lemma allowed_exts_iff ext :
  ext ∈ ingestion.ALLOWED_EXTS ↔ ext = lit ".txt" ∨ ext = lit ".md".
Proof.
  unfold ingestion.ALLOWED_EXTS.
  by rewrite elem_of_union, !elem_of_singleton.
Qed.

Lemma uploaded_file_ext : (splitext (lit "uploaded_file")).2 = [].
Proof. by vm_compute. Qed.

Lemma uploaded_file_nonempty : lit "uploaded_file" ≠ [].
Proof. by vm_compute. Qed.

Section UploadShape.
Context `{External} `{!VectorStoreOps} `{!Builtins}.
Import main.


Lemma rebuild_pipelines_eq (fs : filesystem) g st vs :
  vectorstore st = Some vs →
  rebuild_pipelines g (st, fs)
  = ((mkState (use_langgraph st) (embeddings st) (llm st) (Some vs)
        (Some (qa.mkRetrievalChain (llm st) vs (TOP_K (cfg g))))
        (if LANGGRAPH_AVAILABLE g then
           Some (qa_graph.build_langgraph_chain (llm st) vs (TOP_K (cfg g))
                   (Some (logger g)))
         else graph_chain st),
      fs),
     ([Log INFO (lit "Retriever configured with top_k="
                 ++ str_of_Z (TOP_K (cfg g))) []],
      inr ())).
Proof.
  intros Hvs. unfold rebuild_pipelines. rewrite Hvs. simpl.
  unfold set_retrieval_chain, set_graph_chain. simpl. rewrite Hvs.
  by destruct (LANGGRAPH_AVAILABLE g).
Qed.

(** The state and the disk after the indexing step. *)
Lemma index_chunks_cases (fs : filesystem) g chunks st :
  ∃ st1 t r,
    index_chunks g chunks (st, fs) = ((st1, fs), (t, r))
    ∧ use_langgraph st1 = use_langgraph st
    ∧ embeddings st1 = embeddings st
    ∧ llm st1 = llm st
    ∧ (chains_consistent g st → chains_consistent g st1)
    ∧ (r = inr () → is_not_None (vectorstore st1) = true)
    ∧ (vectorstore st = None →
       match ingestion.create_vectorstore_from_docs chunks (embeddings st)
               (Some (logger g)) with
       | (t', inr vs) => st1 = set_vectorstore st vs ∧ t = t' ∧ r = inr ()
       | (t', inl e) => st1 = st ∧ t = t' ∧ r = inl e
       end)
    ∧ (∀ vs, vectorstore st = Some vs →
       st1 = store_mutated st (add_documents vs chunks).2.1
       ∧ t = (add_documents vs chunks).1
       ∧ r = match (add_documents vs chunks).2.2 with
             | Some e => inl e
             | None => inr ()
             end).
Proof.
  unfold index_chunks.
  destruct (vectorstore st) as [vs|] eqn:Hvs.
  - destruct (add_documents vs chunks) as [t [vs' err]] eqn:Hadd.
    eexists _, _, _. split_and!; try done.
    + intros [Hrc Hgc]. split; simpl.
      * intros c Hc. destruct (retrieval_chain st) as [c0|];
          simplify_eq/=.
        by destruct (Hrc c0 eq_refl) as (_ & ? & ?).
      * intros c Hc. destruct (graph_chain st) as [c0|]; simplify_eq/=.
        by destruct (Hgc c0 eq_refl) as (? & _ & ? & ? & ?).
    + intros vs0 [= <-]. by rewrite Hadd.
  - destruct (ingestion.create_vectorstore_from_docs _ _ _)
      as [t [e|vs]] eqn:Hcreate; eexists _, _, _;
      (split_and!; try done).
    intros [Hrc Hgc]. split; simpl.
    + intros c Hc. destruct (Hrc c Hc) as [? _]. congruence.
    + intros c Hc. destruct (Hgc c Hc) as (_ & ? & _). congruence.
Qed.

Local Arguments index_chunks : simpl never.
Local Arguments persist : simpl never.
Local Arguments rebuild_pipelines : simpl never.
Local Arguments upload_chunks : simpl never.

Lemma upload_document_eq (fs : filesystem) g st file :
  upload_ext file ∈ ingestion.ALLOWED_EXTS →
  upload_document g (st, fs) file
  = match read file with
    | inl e => ((st, fs), upload_failed [] e)
    | inr raw =>
        let chunks := upload_chunks g (upload_filename file) raw in
        match index_chunks g chunks (st, fs) with
        | (w1, (t1, inl e)) => (w1, upload_failed t1 e)
        | (w1, (t1, inr _)) =>
            match persist g w1 with
            | (w2, (t2, inl e)) => (w2, upload_failed (t1 ++ t2) e)
            | (w2, (t2, inr _)) =>
                match rebuild_pipelines g w2 with
                | (w3, (t3, inl e)) =>
                    (w3, upload_failed (t1 ++ t2 ++ t3) e)
                | (w3, (t3, inr _)) =>
                    (w3,
                     (t1 ++ t2 ++ t3
                      ++ [Log INFO
                            (lit "Indexed "
                             ++ str_of_Z (Z.of_nat (List.length chunks))
                             ++ lit " chunks from '"
                             ++ upload_filename file ++ lit "'.") []],
                      inr (mkUploadResponse
                             (lit "Document '" ++ upload_filename file
                              ++ lit "' indexed successfully.")
                             (Z.of_nat (List.length chunks)))))
                end
            end
        end
    end.
Proof.
  intros Hext. unfold upload_document.
  rewrite bool_decide_eq_true_2 by done. simpl negb. cbv iota.
  unfold upload_body, upload_failed, try_except, lift, call, emit, mbind,
    proc_bind, mret, proc_ret, io_ret.
  destruct (read file) as [e|raw]; [done|]. simpl.
  destruct (index_chunks g _ (st, fs)) as [w1 [t1 [e|[]]]]; [done|].
  destruct (persist g w1) as [w2 [t2 [e|[]]]]; [done|].
  destruct (rebuild_pipelines g w2) as [w3 [t3 [e|[]]]]; simpl.
  - done.
  - by rewrite ?app_nil_r, <- ?app_assoc.
Qed.
End UploadShape.

Section UploadExtras.
Context `{External} `{!VectorStoreOps} `{!Builtins}.
Import main.

Local Arguments index_chunks : simpl never.
Local Arguments persist : simpl never.
Local Arguments rebuild_pipelines : simpl never.
Local Arguments upload_chunks : simpl never.

Lemma upload_filename_nonempty file : upload_filename file ≠ [].
Proof.
  unfold upload_filename, str_or.
  destruct (filename file) as [[|c name]|]; simpl;
    auto using uploaded_file_nonempty.
Qed.

Lemma upload_document_refused (fs : filesystem) g st file :
  upload_ext file ∉ ingestion.ALLOWED_EXTS →
  upload_document g (st, fs) file
  = ((st, fs), raise (unsupported_file_type (upload_ext file))).
Proof.
  intros Hext. unfold upload_document.
  by rewrite bool_decide_eq_false_2.
Qed.

Lemma create_vectorstore_outcome chunks emb logger :
  outcome (ingestion.create_vectorstore_from_docs chunks emb logger)
  = outcome (from_documents chunks emb).
Proof.
  unfold ingestion.create_vectorstore_from_docs, log_if, emit, mbind,
    io_bind, mret, io_ret, outcome.
  destruct logger; simpl; by destruct (from_documents chunks emb) as [? []].
Qed.

Lemma persist_cases (fs : filesystem) g st :
  ∃ fs2 t r, persist g (st, fs) = ((st, fs2), (t, r))
             ∧ (r = inr () →
                ∃ vs, vectorstore st = Some vs
                      ∧ outcome (ingestion.save_vectorstore vs
                                   (INDEX_DIR (cfg g)) (Some (logger g)) fs)
                        = inr fs2).
Proof.
  unfold persist. destruct (vectorstore st) as [vs|].
  - destruct (ingestion.save_vectorstore _ _ _ _) as [t [e|fs2]] eqn:Hs;
      eexists _, _, _; split_and!; try done.
    intros _. exists vs. by rewrite Hs.
  - destruct (mkdir fs (INDEX_DIR (cfg g))); by eexists _, _, _.
Qed.

Lemma rebuild_cases (fs : filesystem) g st :
  ∃ st3 t r, rebuild_pipelines g (st, fs) = ((st3, fs), (t, r))
             ∧ (chains_consistent g st → chains_consistent g st3)
             ∧ (∀ vs, vectorstore st = Some vs →
                  r = inr ()
                  ∧ vectorstore st3 = Some vs
                  ∧ retrieval_chain st3
                    = Some (qa.mkRetrievalChain (llm st) vs (TOP_K (cfg g)))
                  ∧ (LANGGRAPH_AVAILABLE g = true →
                     graph_chain st3
                     = Some (qa_graph.build_langgraph_chain (llm st) vs
                               (TOP_K (cfg g)) (Some (logger g))))).
Proof.
  destruct (vectorstore st) as [vs|] eqn:Hvs.
  - rewrite (rebuild_pipelines_eq fs g st vs Hvs).
    eexists _, _, _. split_and!; [done| |].
    + intros [Hrc Hgc]. split; simpl.
      * by intros c [= <-].
      * destruct (LANGGRAPH_AVAILABLE g) eqn:Hav.
        -- by intros c [= <-].
        -- intros c Hc. destruct (Hgc c Hc) as (? & Hv & ? & ? & ?).
           rewrite Hvs in Hv. by injection Hv as <-.
    + intros vs0 [= <-]. simpl. split_and!; try done. by intros ->.
  - unfold rebuild_pipelines. rewrite Hvs. eexists _, _, _.
    split_and!; done.
Qed.

(** X13. An upload whose lower-cased extension is neither ".txt" nor
    ".md" is refused with status 400 naming the extension; the file is
    not read, nothing is logged, and [app.state] and the disk stay as
    they are. *)
Theorem upload_unsupported_type (fs : filesystem) g st file :
  upload_ext file ≠ lit ".txt" →
  upload_ext file ≠ lit ".md" →
  (upload_document g (st, fs) file).1 = (st, fs)
  ∧ outcome (upload_document g (st, fs) file).2
    = inl (unsupported_file_type (upload_ext file))
  ∧ input_error (outcome (upload_document g (st, fs) file).2)
  ∧ trace (upload_document g (st, fs) file).2 = [].
Proof.
  intros Htxt Hmd. rewrite upload_document_refused.
  - split_and!; try done. by eexists.
  - rewrite allowed_exts_iff. tauto.
Qed.

(** X14. An upload without a file name (none, or the empty name) is
    always refused as an unsupported type: the name it is given,
    "uploaded_file", has no extension. *)
Theorem upload_without_filename (fs : filesystem) g st file :
  filename file = None ∨ filename file = Some [] →
  str_lower [] = [] →
  (upload_document g (st, fs) file).1 = (st, fs)
  ∧ outcome (upload_document g (st, fs) file).2
    = inl (unsupported_file_type [])
  ∧ trace (upload_document g (st, fs) file).2 = [].
Proof.
  intros Hname Hlower.
  assert (upload_ext file = []) as Hext.
  { assert (upload_filename file = lit "uploaded_file") as Hfile.
    { unfold upload_filename. by destruct Hname as [-> | ->]. }
    unfold upload_ext. by rewrite Hfile, uploaded_file_ext. }
  rewrite upload_document_refused; rewrite Hext; [done|].
  rewrite allowed_exts_iff. intros [Hx|Hx]; by vm_compute in Hx.
Qed.

(** X15. Whatever its outcome, an upload keeps the pipelines
    consistent with [app.state]. *)
Theorem upload_keeps_chains_consistent (fs : filesystem) g st file :
  chains_consistent g st →
  chains_consistent g (upload_document g (st, fs) file).1.1.
Proof.
  intros Hcons.
  destruct (decide (upload_ext file ∈ ingestion.ALLOWED_EXTS)) as [Hext|Hext];
    [|by rewrite upload_document_refused].
  rewrite upload_document_eq by done.
  destruct (read file) as [e|raw]; [done|]. cbv zeta.
  destruct (index_chunks_cases fs g
              (upload_chunks g (upload_filename file) raw) st)
    as (st1 & t1 & r1 & -> & _ & _ & _ & Hc1 & _).
  destruct r1 as [e|[]]; [by apply Hc1|].
  destruct (persist_cases fs g st1) as (fs2 & t2 & r2 & -> & _).
  destruct r2 as [e|[]]; [by apply Hc1|].
  destruct (rebuild_cases fs2 g st1) as (st3 & t3 & r3 & -> & Hc3 & _).
  destruct r3 as [e|[]]; simpl; auto.
Qed.

(** What a successful upload did. *)
Lemma upload_success_run (fs : filesystem) g st file resp :
  outcome (upload_document g (st, fs) file).2 = inr resp →
  ∃ raw vs',
    let chunks := upload_chunks g (upload_filename file) raw in
    let st' := (upload_document g (st, fs) file).1.1 in
    let fs' := (upload_document g (st, fs) file).1.2 in
    upload_ext file ∈ ingestion.ALLOWED_EXTS
    ∧ read file = inr raw
    ∧ chunks_indexed resp = Z.of_nat (List.length chunks)
    ∧ vectorstore st' = Some vs'
    ∧ (vectorstore st = None
       ∧ outcome (from_documents chunks (embeddings st)) = inr vs'
       ∨ ∃ vs, vectorstore st = Some vs
               ∧ (add_documents vs chunks).2 = (vs', None))
    ∧ retrieval_chain st'
      = Some (qa.mkRetrievalChain (llm st) vs' (TOP_K (cfg g)))
    ∧ (LANGGRAPH_AVAILABLE g = true →
       graph_chain st'
       = Some (qa_graph.build_langgraph_chain (llm st) vs' (TOP_K (cfg g))
                 (Some (logger g))))
    ∧ outcome (ingestion.save_vectorstore vs' (INDEX_DIR (cfg g))
                 (Some (logger g)) fs) = inr fs'.
Proof.
  intros Hok.
  destruct (decide (upload_ext file ∈ ingestion.ALLOWED_EXTS)) as [Hext|Hext];
    [|by rewrite upload_document_refused in Hok].
  rewrite upload_document_eq in Hok |- * by done.
  destruct (read file) as [e|raw]; [done|]. cbv zeta in Hok |- *.
  exists raw.
  destruct (index_chunks_cases fs g
              (upload_chunks g (upload_filename file) raw) st)
    as (st1 & t1 & r1 & Hidx & _ & _ & Hllm & _ & Hv1 & Hnew & Hadd).
  rewrite Hidx in Hok |- *.
  destruct r1 as [e|[]]; [done|].
  destruct (persist_cases fs g st1) as (fs2 & t2 & r2 & Hper & Hsave).
  rewrite Hper in Hok |- *.
  destruct r2 as [e|[]]; [done|].
  destruct (Hsave eq_refl) as (vs' & Hvs' & Hs).
  destruct (rebuild_cases fs2 g st1) as (st3 & t3 & r3 & Hre & _ & Hst3).
  rewrite Hre in Hok |- *.
  destruct (Hst3 vs' Hvs') as (-> & Hv3 & Hrc & Hgc).
  simpl in Hok |- *. injection Hok as <-. exists vs'.
  rewrite Hllm in Hrc, Hgc. split_and!; try done.
  destruct (vectorstore st) as [vs|] eqn:Hvs.
  - right. exists vs. split; [done|].
    destruct (Hadd vs eq_refl) as (-> & _ & Hr).
    simpl in Hvs'. injection Hvs' as <-.
    destruct (add_documents vs _) as [? [? []]]; simpl in *; done.
  - left. split; [done|]. specialize (Hnew eq_refl).
    rewrite <- create_vectorstore_outcome with (logger := Some (logger g)).
    destruct (ingestion.create_vectorstore_from_docs _ _ _) as [? [?|vs]].
    + by destruct Hnew as (_ & _ & [=]).
    + destruct Hnew as (-> & _ & _). simpl in Hvs'. by injection Hvs' as <-.
Qed.

(** X16. After a successful upload: the extension was allowed and the
    file was read; [chunks_indexed] is the number of chunks of the
    file; the index of [app.state] is the store that was created (first
    upload) or added to; the retrieval chain, and the staged pipeline
    when its module is loaded, are built anew over that store; and the
    disk is what [save_vectorstore] made of it for that store. *)
Theorem upload_success (fs : filesystem) g st file resp :
  outcome (upload_document g (st, fs) file).2 = inr resp →
  ∃ raw vs',
    let chunks := upload_chunks g (upload_filename file) raw in
    let st' := (upload_document g (st, fs) file).1.1 in
    let fs' := (upload_document g (st, fs) file).1.2 in
    upload_ext file ∈ ingestion.ALLOWED_EXTS
    ∧ read file = inr raw
    ∧ chunks_indexed resp = Z.of_nat (List.length chunks)
    ∧ vectorstore st' = Some vs'
    ∧ (vectorstore st = None
       ∧ outcome (from_documents chunks (embeddings st)) = inr vs'
       ∨ ∃ vs, vectorstore st = Some vs
               ∧ (add_documents vs chunks).2 = (vs', None))
    ∧ retrieval_chain st'
      = Some (qa.mkRetrievalChain (llm st) vs' (TOP_K (cfg g)))
    ∧ (LANGGRAPH_AVAILABLE g = true →
       graph_chain st'
       = Some (qa_graph.build_langgraph_chain (llm st) vs' (TOP_K (cfg g))
                 (Some (logger g))))
    ∧ outcome (ingestion.save_vectorstore vs' (INDEX_DIR (cfg g))
                 (Some (logger g)) fs) = inr fs'.
Proof. apply upload_success_run. Qed.

End UploadExtras.

Section UploadExtras2.
Context `{External} `{!VectorStoreOps} `{!Builtins}.
Import main.

Local Arguments index_chunks : simpl never.
Local Arguments persist : simpl never.
Local Arguments rebuild_pipelines : simpl never.
Local Arguments upload_chunks : simpl never.

(** X17. Given that FAISS and pickle read back what they wrote, a
    process started on the disk left by a successful upload restores a
    store with the index and the docstore of the store in memory, and
    builds its retrieval chain. *)
Theorem upload_then_restart (fs : filesystem) g st file resp prefer emb
    model :
  (∀ idx, read_index (write_index idx) = inr idx) →
  (∀ ds, pickle_load (pickle_dump ds) = inr ds) →
  outcome (upload_document g (st, fs) file).2 = inr resp →
  ∃ vs' t st2 vs2,
    vectorstore (upload_document g (st, fs) file).1.1 = Some vs'
    ∧ startup g prefer emb model (upload_document g (st, fs) file).1.2
      = (t, inr st2)
    ∧ vectorstore st2 = Some vs2
    ∧ index vs2 = index vs'
    ∧ docstore vs2 = docstore vs'
    ∧ embedding_function vs2 = emb
    ∧ is_not_None (retrieval_chain st2) = true.
Proof.
  intros Hidx Hds Hok.
  destruct (upload_success_run fs g st file resp Hok)
    as (raw & vs' & _ & _ & _ & Hvs' & _ & _ & _ & Hsave).
  exists vs'. set (fs' := (upload_document g (st, fs) file).1.2) in *.
  rewrite save_vectorstore_eq in Hsave.
  assert (∃ entries,
    fs' !! INDEX_DIR (cfg g)
    = Some (Dir (<[lit "index.pkl" := pickle_dump (docstore vs')]>
                   (<[lit "index.faiss" := write_index (index vs')]>
                      entries)))) as [entries Hdir].
  { destruct (fs !! INDEX_DIR (cfg g)) as [[entries|content]|];
      simpl in Hsave; [|done|]; injection Hsave as <-;
      eexists; apply lookup_insert_eq. }
  pose proof (load_vectorstore_reads fs' (INDEX_DIR (cfg g)) emb
                (Some (logger g)) _ (index vs') (docstore vs') Hdir) as Hload.
  rewrite lookup_insert_ne in Hload
    by (apply not_eq_sym, index_files_distinct).
  rewrite !lookup_insert_eq in Hload.
  specialize (Hload eq_refl eq_refl (Hidx _) (Hds _)).
  unfold startup.
  destruct (ingestion.load_vectorstore _ _ _ fs') as [t o].
  simpl in Hload. subst o.
  unfold qa.build_retrieval_chain, log_if, emit, mbind, io_bind, mret,
    io_ret. simpl.
  destruct (LANGGRAPH_AVAILABLE g); simpl; eexists _, _, _;
    split_and!; done.
Qed.

(** X18. Every chunk that an upload indexes is a piece of the decoded
    text and carries the name of the file, which is never empty, as its
    source. *)
Theorem upload_chunks_carry_filename g file raw c :
  c ∈ upload_chunks g (upload_filename file) raw →
  upload_filename file ≠ []
  ∧ source_id c = Some (upload_filename file)
  ∧ page_content c
    ∈ split_text (CHUNK_SIZE (cfg g)) (CHUNK_OVERLAP (cfg g))
        (decode_utf8_ignore raw).
Proof.
  unfold upload_chunks, ingestion.load_file_to_documents,
    ingestion.split_text_documents, ingestion.split_documents.
  intros (c0 & -> & Hc0)%list_elem_of_fmap.
  apply list_elem_of_bind in Hc0 as (d & Hc0 & ->%list_elem_of_singleton).
  apply list_elem_of_fmap in Hc0 as (t & -> & Ht). simpl in *.
  pose proof (upload_filename_nonempty file) as Hne.
  split_and!; [done| |done].
  rewrite source_id_ensure_source. simpl.
  unfold ingestion.get_source_or_unknown, str_or.
  by rewrite lookup_singleton_eq, truthy_true.
Qed.



End UploadExtras2.

Section GraphExtras.
Context `{External}.

(** X21. The compiled graph raises a [KeyError] at once, calling no
    port, on a state without question. On a state with a question, a
    run that returns has made one search and returns a state with every
    key set: the question as given, the chunks found, the answer and
    the set of the sources of those chunks. *)
Theorem graph_invoke_state c s0 :
  (qa_graph.question s0 = None →
   qa_graph.invoke c s0 = ([], inl (Exception (lit "KeyError: 'question'"))))
  ∧ (∀ q s,
       qa_graph.question s0 = Some q →
       outcome (qa_graph.invoke c s0) = inr s →
       ∃ hits text,
         retrieved (trace (qa_graph.invoke c s0)) = [hits]
         ∧ qa_graph.question s = Some q
         ∧ qa_graph.docs s = Some hits
         ∧ qa_graph.answer s = Some text
         ∧ qa_graph.sources s
           = Some (list_to_set (qa_graph.source_of <$> hits))).
Proof.
  unfold qa_graph.invoke, qa_graph.retrieve, qa_graph.generate,
    qa_graph.state_question, qa_graph.update, similarity_search,
    embed_query, llm_invoke, log_if, call, emit, raise, trace, outcome,
    mbind, io_bind, mret, io_ret.
  split.
  - by intros ->.
  - intros q s ->. simpl.
    destruct (embedding_function (qa_graph.g_vectorstore c) q) as [e|v];
      simpl; [done|].
    destruct (qa_graph.g_logger c); simpl;
      (destruct (qa_graph.g_llm c _) as [e|text]; simpl; [done|]);
      intros [= <-]; eexists _, _; done.
Qed.

End GraphExtras.

Section Composition.
Context `{External} `{!VectorStoreOps} `{!Builtins}.
Import main.

(** X22. After a successful upload a question is never refused for an
    empty knowledge base: a question that is not blank runs the
    selected pipeline, and the request leaves [app.state] as the upload
    made it. *)
Theorem upload_then_ask (fs : filesystem) g st file resp req engine :
  outcome (upload_document g (st, fs) file).2 = inr resp →
  let st' := (upload_document g (st, fs) file).1.1 in
  outcome (ask g st' req engine).2 ≠ inl empty_knowledge_base_error
  ∧ (strip (question req) ≠ [] →
     invoked (trace (ask g st' req engine).2)
     = [pipeline_of (use_graph g st' engine)])
  ∧ (ask g st' req engine).1 = st'.
Proof.
  intros Hok.
  destruct (upload_success_run fs g st file resp Hok)
    as (raw & vs' & _ & _ & _ & Hvs' & _ & Hrc & _).
  cbv zeta in *.
  set (st' := (upload_document g (st, fs) file).1.1) in *.
  split_and!.
  - destruct (decide (strip (question req) = [])) as [Hq|Hq].
    + rewrite (ask_blank g st' vs' req engine Hvs' Hq). simpl.
      intros Hx. by vm_compute in Hx.
    + destruct (ask_run g st' vs' req engine Hvs' Hq) as (_ & _ & Herr).
      intros Hx. destruct (Herr _ Hx) as [? [=]].
  - intros Hq. by destruct (ask_run g st' vs' req engine Hvs' Hq) as [-> _].
  - rewrite ask_state, Hvs', Hrc. by destruct (_ && _).
Qed.

(** X23. A process started where [load_vectorstore] finds no usable
    snapshot (nothing stored, or files that do not load) comes up
    without calling a port and refuses every question with the input
    error that the knowledge base is empty. *)
Theorem startup_without_index_then_ask (fs : filesystem) g prefer emb model :
  outcome (ingestion.load_vectorstore (INDEX_DIR (cfg g)) emb
             (Some (logger g)) fs) = inr None →
  ∃ t st,
    startup g prefer emb model fs = (t, inr st)
    ∧ port_calls t = []
    ∧ ∀ req engine,
        ask g st req engine = (st, raise empty_knowledge_base_error).
Proof.
  intros Hload. unfold startup.
  destruct (load_vectorstore_total fs (INDEX_DIR (cfg g)) emb
              (Some (logger g))) as (t & o & Heq & Hp).
  rewrite Heq in Hload |- *. simpl in Hload. injection Hload as ->.
  eexists _, _. split; [done|]. split.
  - by rewrite port_calls_app, Hp.
  - intros req engine. by apply ask_no_index.
Qed.

End Composition.

(** ** The further properties on concrete requests *)

Lemma ask_keeps_chains_consistent_witness :
  chains_consistent (Demo.globals true)
    (main.ask (Demo.globals true) Demo.both (main.mkAskRequest (lit "hi"))
       None).1.
Proof.
  apply (ask_keeps_chains_consistent (Demo.globals true) Demo.both).
  split; intros c [= <-]; done.
Defined.

Lemma ask_answered_port_calls_witness :
  let r := (main.ask (Demo.globals true) Demo.both
              (main.mkAskRequest (lit " hi ")) None).2 in
  ∃ p hits,
    invoked (trace r) = [p]
    ∧ retrieved (trace r) = [hits]
    ∧ port_calls (trace r)
      = [EmbedCall (strip (lit " hi "));
         GenerateCall (input_as p hits (strip (lit " hi ")))].
Proof.
  intros r.
  apply (ask_answered_port_calls (Demo.globals true) Demo.both
           (main.mkAskRequest (lit " hi ")) None
           (main.mkAnswer (lit "Paris.") [lit "b.txt"; lit "a.txt"])).
  vm_compute. reflexivity.
Defined.

Lemma ask_embedding_failure_witness :
  let r := (main.ask (Demo.globals false) Demo.broken
              (main.mkAskRequest (lit "hi")) None).2 in
  outcome r
  = inl (HTTPException 500
           (lit "Answering failed: " ++ lit "quota exceeded"))
  ∧ port_calls (trace r) = [EmbedCall (strip (lit "hi"))]
  ∧ retrieved (trace r) = []
  ∧ last (trace r) = Some (Log ERROR (lit "Failed to answer question") []).
Proof.
  intros r.
  apply (ask_embedding_failure (Demo.globals false) Demo.broken
           Demo.broken_store (main.mkAskRequest (lit "hi")) None
           (Exception (lit "quota exceeded")));
    [split; [intros c [= <-]; done|discriminate]
    | reflexivity | vm_compute; discriminate | reflexivity].
Defined.


Lemma ask_empty_retrieval_witness :
  let r := (main.ask (Demo.globals false) Demo.blank
              (main.mkAskRequest (lit "hi")) None).2 in
  main.sources (main.mkAnswer (lit "Paris.") []) = []
  ∧ ∃ p,
      invoked (trace r) = [p]
      ∧ port_calls (trace r)
        = [EmbedCall (strip (lit "hi"));
           GenerateCall (input_as p [] (strip (lit "hi")))].
Proof.
  intros r.
  apply (ask_empty_retrieval (Demo.globals false) Demo.blank
           (main.mkAskRequest (lit "hi")) None
           (main.mkAnswer (lit "Paris.") []));
    vm_compute; reflexivity.
Defined.

Lemma ask_sources_come_from_index_witness :
  ∃ d, d ∈ docstore Demo.store
       ∧ source_as
           (pipeline_of (main.use_graph (Demo.globals true) Demo.both None))
           d = lit "b.txt".
Proof.
  apply (ask_sources_come_from_index (Demo.globals true) Demo.both
           Demo.store (main.mkAskRequest (lit "hi")) None
           (main.mkAnswer (lit "Paris.") [lit "b.txt"; lit "a.txt"]));
    [split; intros c [= <-]; done | reflexivity | vm_compute; reflexivity
    | vm_compute; left].
Defined.

Lemma ask_engines_agree_on_sources_witness :
  main.sources (main.mkAnswer (lit "Paris.") [lit "b.txt"; lit "a.txt"])
  = main.sources (main.mkAnswer (lit "Paris.") [lit "b.txt"; lit "a.txt"]).
Proof.
  apply (ask_engines_agree_on_sources (Demo.globals true) Demo.both
           Demo.store (main.mkAskRequest (lit "hi")));
    [split; intros c [= <-]; done | reflexivity | 
    | vm_compute; reflexivity | vm_compute; reflexivity].
  intros d Hd. vm_compute in Hd.
  repeat (apply elem_of_cons in Hd as [->|Hd]; [vm_compute; discriminate|]).
  by apply elem_of_nil in Hd.
Defined.


Lemma load_vectorstore_some_iff_witness :
  let fs : filesystem :=
    {[ lit "data/index" :=
         Dir (<[lit "index.pkl" := Demo.DocstoreFile Demo.chunks]>
                {[ lit "index.faiss" := Demo.IndexFile [[1]; [3]; [5]]%Z ]}) ]} in
  outcome (ingestion.load_vectorstore (lit "data/index") Demo.embed None fs)
  = inr (Some Demo.store).
Proof.
  intros fs.
  apply (load_vectorstore_some_iff (H:=Demo.external) fs (lit "data/index")
           Demo.embed None Demo.store).
  eexists _, _, _. split_and!; vm_compute; reflexivity.
Defined.

Lemma upload_unsupported_type_witness :
  let r := main.upload_document (Demo.globals true) (Demo.both, ∅)
             Demo.report in
  r.1 = (Demo.both, ∅)
  ∧ outcome r.2 = inl (main.unsupported_file_type (main.upload_ext Demo.report))
  ∧ input_error (outcome r.2)
  ∧ trace r.2 = [].
Proof.
  intros r.
  apply (upload_unsupported_type ∅ (Demo.globals true) Demo.both
           Demo.report); vm_compute; discriminate.
Defined.

Lemma upload_without_filename_witness :
  let r := main.upload_document (Demo.globals true) (Demo.both, ∅)
             Demo.nameless in
  r.1 = (Demo.both, ∅)
  ∧ outcome r.2 = inl (main.unsupported_file_type [])
  ∧ trace r.2 = [].
Proof.
  intros r.
  apply (upload_without_filename ∅ (Demo.globals true) Demo.both
           Demo.nameless); [left|]; reflexivity.
Defined.

Lemma upload_keeps_chains_consistent_witness :
  chains_consistent (Demo.globals true)
    (main.upload_document (Demo.globals true) (Demo.both, ∅) Demo.notes).1.1.
Proof.
  apply (upload_keeps_chains_consistent ∅ (Demo.globals true) Demo.both).
  split; intros c [= <-]; done.
Defined.

Lemma upload_success_witness :
  let g := Demo.globals true in
  let r := main.upload_document g (Demo.empty, ∅) Demo.notes in
  ∃ raw vs',
    let chunks := main.upload_chunks g (main.upload_filename Demo.notes) raw in
    main.upload_ext Demo.notes ∈ ingestion.ALLOWED_EXTS
    ∧ main.read Demo.notes = inr raw
    ∧ main.chunks_indexed
        (main.mkUploadResponse
           (lit "Document 'notes.TXT' indexed successfully.") 1)
      = Z.of_nat (List.length chunks)
    ∧ main.vectorstore r.1.1 = Some vs'
    ∧ (main.vectorstore Demo.empty = None
       ∧ outcome (from_documents chunks (main.embeddings Demo.empty))
         = inr vs'
       ∨ ∃ vs, main.vectorstore Demo.empty = Some vs
               ∧ (add_documents vs chunks).2 = (vs', None))
    ∧ main.retrieval_chain r.1.1
      = Some (qa.mkRetrievalChain (main.llm Demo.empty) vs'
                (main.TOP_K (main.cfg g)))
    ∧ (main.LANGGRAPH_AVAILABLE g = true →
       main.graph_chain r.1.1
       = Some (qa_graph.build_langgraph_chain (main.llm Demo.empty) vs'
                 (main.TOP_K (main.cfg g)) (Some (main.logger g))))
    ∧ outcome (ingestion.save_vectorstore vs' (main.INDEX_DIR (main.cfg g))
                 (Some (main.logger g)) ∅) = inr r.1.2.
Proof.
  intros g r.
  apply (upload_success ∅ g Demo.empty Demo.notes
           (main.mkUploadResponse
              (lit "Document 'notes.TXT' indexed successfully.") 1)).
  vm_compute. reflexivity.
Defined.

Lemma upload_then_restart_witness :
  let g := Demo.globals true in
  let r := main.upload_document g (Demo.empty, ∅) Demo.notes in
  ∃ vs' t st2 vs2,
    main.vectorstore r.1.1 = Some vs'
    ∧ main.startup g true Demo.embed Demo.model r.1.2 = (t, inr st2)
    ∧ main.vectorstore st2 = Some vs2
    ∧ index vs2 = index vs'
    ∧ docstore vs2 = docstore vs'
    ∧ embedding_function vs2 = Demo.embed
    ∧ main.is_not_None (main.retrieval_chain st2) = true.
Proof.
  intros g r.
  apply (upload_then_restart ∅ g Demo.empty Demo.notes
           (main.mkUploadResponse
              (lit "Document 'notes.TXT' indexed successfully.") 1));
    [reflexivity | reflexivity | vm_compute; reflexivity].
Defined.

Lemma upload_chunks_carry_filename_witness :
  let g := Demo.globals true in
  let c := Demo.doc (lit "Paris is the capital of France.") (lit "notes.TXT") in
  main.upload_filename Demo.notes ≠ []
  ∧ source_id c = Some (main.upload_filename Demo.notes)
  ∧ page_content c
    ∈ split_text (main.CHUNK_SIZE (main.cfg g))
        (main.CHUNK_OVERLAP (main.cfg g))
        (decode_utf8_ignore (Demo.bytes "Paris is the capital of France.")).
Proof.
  intros g c.
  apply (upload_chunks_carry_filename g Demo.notes
           (Demo.bytes "Paris is the capital of France.") c).
  vm_compute. left.
Defined.



Lemma graph_invoke_state_witness :
  let c := qa_graph.build_langgraph_chain Demo.model Demo.store 4 None in
  let s0 := qa_graph.mkQAState (Some (lit "hi")) None None None in
  ∃ hits text,
    retrieved (trace (qa_graph.invoke c s0)) = [hits]
    ∧ qa_graph.question
        (qa_graph.mkQAState (Some (lit "hi")) (Some Demo.chunks)
           (Some (lit "Paris."))
           (Some (list_to_set (qa_graph.source_of <$> Demo.chunks))))
      = Some (lit "hi")
    ∧ qa_graph.docs
        (qa_graph.mkQAState (Some (lit "hi")) (Some Demo.chunks)
           (Some (lit "Paris."))
           (Some (list_to_set (qa_graph.source_of <$> Demo.chunks))))
      = Some hits
    ∧ qa_graph.answer
        (qa_graph.mkQAState (Some (lit "hi")) (Some Demo.chunks)
           (Some (lit "Paris."))
           (Some (list_to_set (qa_graph.source_of <$> Demo.chunks))))
      = Some text
    ∧ qa_graph.sources
        (qa_graph.mkQAState (Some (lit "hi")) (Some Demo.chunks)
           (Some (lit "Paris."))
           (Some (list_to_set (qa_graph.source_of <$> Demo.chunks))))
      = Some (list_to_set (qa_graph.source_of <$> hits)).
Proof.
  intros c s0.
  destruct (graph_invoke_state (H:=Demo.external) c s0) as [_ Hrun].
  apply (Hrun (lit "hi")); [reflexivity|vm_compute; reflexivity].
Defined.

Lemma upload_then_ask_witness :
  let g := Demo.globals true in
  let st' := (main.upload_document g (Demo.empty, ∅) Demo.notes).1.1 in
  let req := main.mkAskRequest (lit "What is the capital of France?") in
  outcome (main.ask g st' req None).2 ≠ inl empty_knowledge_base_error
  ∧ (strip (main.question req) ≠ [] →
     invoked (trace (main.ask g st' req None).2)
     = [pipeline_of (main.use_graph g st' None)])
  ∧ (main.ask g st' req None).1 = st'.
Proof.
  intros g st' req.
  apply (upload_then_ask ∅ g Demo.empty Demo.notes
           (main.mkUploadResponse
              (lit "Document 'notes.TXT' indexed successfully.") 1)).
  vm_compute. reflexivity.
Defined.

Lemma startup_without_index_then_ask_witness :
  let g := Demo.globals true in
  ∃ t st,
    main.startup g true Demo.embed Demo.model Demo.corrupt = (t, inr st)
    ∧ port_calls t = []
    ∧ ∀ req engine,
        main.ask g st req engine = (st, raise empty_knowledge_base_error).
Proof.
  intros g.
  apply (startup_without_index_then_ask Demo.corrupt g true Demo.embed
           Demo.model).
  vm_compute. reflexivity.
Defined.

(** ** Surrounding whitespace *)

Lemma lstrip_suffix s : ∃ pre, s = pre ++ lstrip s.
Proof.
  induction s as [|c s [pre IH]]; simpl; [by exists []|].
  destruct (isspace c); [|by exists []].
  exists (c :: pre). simpl. by f_equal.
Qed.

Lemma lstrip_idemp s : lstrip (lstrip s) = lstrip s.
Proof.
  destruct (lstrip_spaces_or_head s) as [->|(c & r & -> & Hc)]; [done|].
  simpl. by rewrite Hc.
Qed.

(** A prefix of a string without leading whitespace has none either. *)
Lemma lstrip_prefix s t post :
  lstrip s = s → s = t ++ post → lstrip t = t.
Proof.
  intros Hs ->. destruct t as [|c t]; [done|].
  simpl in *. destruct (isspace c) eqn:Hc; [|done].
  destruct (lstrip_suffix (t ++ post)) as [pre Hpre].
  rewrite Hs in Hpre. apply (f_equal List.length) in Hpre.
  rewrite !length_app in Hpre. simpl in Hpre. rewrite length_app in Hpre.
  lia.
Qed.

Lemma strip_idemp s : strip (strip s) = strip s.
Proof.
  unfold strip, rstrip.
  set (u := lstrip (reverse (lstrip s))).
  assert (lstrip (reverse u) = reverse u) as ->.
  { destruct (lstrip_suffix (reverse (lstrip s))) as [pre Hpre].
    fold u in Hpre. apply (f_equal reverse) in Hpre.
    rewrite reverse_involutive, reverse_app in Hpre.
    by eapply (lstrip_prefix (lstrip s)); [apply lstrip_idemp|]. }
  rewrite reverse_involutive. unfold u. by rewrite lstrip_idemp.
Qed.

Section Whitespace.
Context `{External}.

(** X24. Whitespace around the question changes nothing: a request and
    the request with the stripped question have the same outcome, the
    same trace and the same effect on [app.state]. *)
Theorem ask_ignores_surrounding_whitespace g st req engine :
  main.ask g st req engine
  = main.ask g st (main.mkAskRequest (strip (main.question req))) engine.
Proof. unfold main.ask. simpl. by rewrite strip_idemp. Qed.

End Whitespace.
